(** * kvexpress: the file-handling commands and the [out] command

    A shallow embedding of [commands/files.go] and of the [out] command
    ([outRun], [checkOutFlags]) together with the properties of the safe-apply
    engine that can be stated over them.

    Go strings are byte sequences: they are modelled as [string] (one [ascii]
    per byte).  Go [int] values that only carry permission bits, lengths, user
    ids and exit codes are modelled as [Z].  The filesystem, the log, standard
    output and the commands that were started make up an explicit [world] that
    every effectful function threads; [os.Exit] ends the run with a code.
    [RandomTmpFile], which asks the system for a fresh temporary file, is the
    one function of [files.go] left out. *)

From Stdlib Require Import ZArith Ascii String List Lia Permutation Sorted.
From stdpp Require Import base gmap strings list sorting.

Open Scope string_scope.
Open Scope Z_scope.

(** ** Go's [strings] and [strconv] packages, as far as the commands use them *)

Definition slash : ascii := "/"%char.
Definition newline : ascii := "010"%char.
Definition nl : string := String newline "".

(** [strings.Split(s, sep)] for a one-byte separator: the substrings between
    the separators, in order; a string without separator (the empty string
    too) gives a single element. *)
Fixpoint Split (sep : ascii) (s : string) : list string :=
  match s with
  | EmptyString => [""]
  | String c s' =>
      if Ascii.eqb c sep then "" :: Split sep s'
      else match Split sep s' with
           | [] => [String c ""]
           | l :: ls => String c l :: ls
           end
  end.

(** [strings.Join(elems, sep)]. *)
Fixpoint Join (sep : string) (elems : list string) : string :=
  match elems with
  | [] => ""
  | [a] => a
  | a :: rest => a ++ sep ++ Join sep rest
  end.

(** [strings.HasPrefix(s, prefix)]. *)
Definition HasPrefix (s pre : string) : bool := String.prefix pre s.

(** [sort.Strings]: increasing byte-wise order (Go's [<] on strings).  A list
    has exactly one sorted arrangement under this total order, so any sorting
    function stands for the library's. *)
Definition sort_Strings (l : list string) : list string := merge_sort String.le l.

Definition digit_char (d : N) : ascii := ascii_of_N (48 + d).

Fixpoint digits_go (fuel : nat) (base n : N) (acc : string) : string :=
  match fuel with
  | O => acc
  | S fuel' =>
      let acc' := String (digit_char (n mod base)) acc in
      if (n / base =? 0)%N then acc' else digits_go fuel' base (n / base) acc'
  end.

(** [strconv.FormatInt(i, base)] for [2 <= base <= 10]. *)
Definition FormatInt (i : Z) (base : N) : string :=
  let n := Z.abs_N i in
  let s := digits_go (S (N.size_nat n)) base n "" in
  if i <? 0 then String "-"%char s else s.

(** [strconv.FormatBool], also the [%t] verb. *)
Definition FormatBool (b : bool) : string := if b then "true" else "false".

(** Whether the byte occurs in the string. *)
Fixpoint has_byte (c : ascii) (s : string) : bool :=
  match s with
  | EmptyString => false
  | String a s' => Ascii.eqb a c || has_byte c s'
  end.

(** ** Go's [path] package *)

Definition nonempty (s : string) : bool := negb (String.eqb s "").

Fixpoint clean_go (rooted : bool) (stack : list string) (elems : list string)
  : list string :=
  match elems with
  | [] => rev stack
  | e :: rest =>
      if String.eqb e "." then clean_go rooted stack rest
      else if String.eqb e ".." then
        match stack with
        | top :: below =>
            if String.eqb top ".." then clean_go rooted (e :: stack) rest
            else clean_go rooted below rest
        | [] =>
            if rooted then clean_go rooted stack rest
            else clean_go rooted (e :: stack) rest
        end
      else clean_go rooted (e :: stack) rest
  end.

(** [path.Clean]: repeated slashes and [.] elements dropped, each inner [..]
    removed with the element before it, [..] at the root dropped; the empty
    result is [.]. *)
Definition Clean (p : string) : string :=
  let rooted := HasPrefix p "/" in
  let elems := clean_go rooted [] (filter (λ e, nonempty e = true) (Split slash p)) in
  let body := Join "/" elems in
  let out := if rooted then "/" ++ body else body in
  if String.eqb out "" then "." else out.

(** A list of path elements as [path.Clean] leaves it: no [.] element, and
    [..] elements only in front, none of them in a rooted path. *)
Definition cleaned (rooted : bool) (elems : list string) : Prop :=
  ∃ (k : nat) (normal : list string),
    elems = (repeat ".." k ++ normal)%list
    ∧ (rooted = true → k = 0%nat)
    ∧ Forall (λ e, e ≠ "." ∧ e ≠ "..") normal.

(** The part of [p] up to and including its last slash ([path.Split]'s
    directory half). *)
Fixpoint upto_last_slash (p : string) : string :=
  match p with
  | EmptyString => ""
  | String c p' =>
      let r := upto_last_slash p' in
      if String.eqb r "" then (if Ascii.eqb c slash then String c "" else "")
      else String c r
  end.

(** [path.Dir]. *)
Definition Dir (p : string) : string := Clean (upto_last_slash p).

Fixpoint strip_trailing_slashes (p : string) : string :=
  match p with
  | EmptyString => ""
  | String c p' =>
      let r := strip_trailing_slashes p' in
      if String.eqb r "" then (if Ascii.eqb c slash then "" else String c "")
      else String c r
  end.

(** [path.Base]. *)
Definition Base (p : string) : string :=
  if String.eqb p "" then "."
  else
    let q := strip_trailing_slashes p in
    let b := List.last (Split slash q) "" in
    if String.eqb b "" then "/" else b.

(** [path.Join]: empty elements are ignored and the result is cleaned; with
    nothing to join the result is empty. *)
Definition path_Join (elems : list string) : string :=
  match filter (λ e, nonempty e = true) elems with
  | [] => ""
  | es => Clean (Join "/" es)
  end.

(** ** The world the commands act on *)

(** A regular file: content, permission bits, owner and group. *)
Record file := mkFile { f_data : string; f_mode : Z; f_uid : Z; f_gid : Z }.

Inductive node := NDir | NFile (f : file).

(** System calls that can fail for reasons the model does not look into (a
    full disk, a read-only filesystem, missing privilege): [w_fails] says for
    each of them whether the operating system refuses it.  A read that fails
    has delivered the bytes before the first offset at which the system
    refuses it ([OpReadAt]), all of them when it refuses at no offset. *)
Inductive op :=
| OpMkdir (p : string)
| OpWrite (p : string)
| OpChown (p : string) (uid gid : Z)
| OpRename (old new : string)
| OpRemove (p : string)
| OpRead (p : string)
| OpReadAt (p : string) (off : nat).

Inductive event :=
| ELog (msg level : string)      (* Log(msg, level) *)
| EStdlog (msg : string)         (* log.Print *)
| EPrint (msg : string)          (* fmt.Printf, fmt.Println *)
| EStatsd (key location : string)
| EExec (cmd : string).          (* a command handed to the shell *)

(** Paths name nodes as the strings the system calls receive: the model has no
    links and does not identify different spellings of one path.  The process
    can look up every path (kvexpress runs privileged), so [os.Stat] and
    [os.Open] fail only when nothing is there. *)
Record world := mkWorld {
  w_fs : gmap string node;
  w_umask : Z;
  w_uid : Z;
  w_gid : Z;
  w_fails : op → bool;
  w_trace : list event
}.

Definition set_fs (fs : gmap string node) (w : world) : world :=
  mkWorld fs (w_umask w) (w_uid w) (w_gid w) (w_fails w) (w_trace w).

Definition emit (e : event) (w : world) : world :=
  mkWorld (w_fs w) (w_umask w) (w_uid w) (w_gid w) (w_fails w) (w_trace w ++ [e]).

(** The regular file at a path, if there is one. *)
Definition file_at (w : world) (p : string) : option file :=
  match w_fs w !! p with
  | Some (NFile f) => Some f
  | _ => None
  end.

(** What the operating system decides for the process stays as it is. *)
Definition same_env (w w' : world) : Prop :=
  w_umask w' = w_umask w ∧ w_uid w' = w_uid w ∧ w_gid w' = w_gid w
  ∧ w_fails w' = w_fails w.

(** Nothing changed in the filesystem but for directories that were made
    where nothing was. *)
Definition only_dirs_added (w w' : world) : Prop :=
  ∀ q, w_fs w' !! q = w_fs w !! q
       ∨ (w_fs w !! q = None ∧ w_fs w' !! q = Some NDir).

(** A run either returns a value or ends the process with an exit code. *)
Inductive res (A : Type) :=
| Ret (a : A) (w : world)
| Exit (code : Z) (w : world).
Arguments Ret {A} a w.
Arguments Exit {A} code w.

Definition M (A : Type) : Type := world → res A.

Definition ret {A} (a : A) : M A := λ w, Ret a w.

Definition bind {A B} (m : M A) (k : A → M B) : M B :=
  λ w, match m w with
       | Ret a w' => k a w'
       | Exit c w' => Exit c w'
       end.

Global Instance M_ret : MRet M := @ret.
Global Instance M_bind : MBind M := λ A B k m, bind m k.

Definition when (b : bool) (m : M unit) : M unit := if b then m else ret tt.

(** The world a run ends in, however it ends. *)
Definition final {A} (r : res A) : world :=
  match r with Ret _ w => w | Exit _ w => w end.

Definition os_Exit {A} (code : Z) : M A := λ w, Exit code w.

Definition Println (msg : string) : M unit := λ w, Ret tt (emit (EPrint (msg ++ nl)) w).
Definition Printf (msg : string) : M unit := λ w, Ret tt (emit (EPrint msg) w).
Definition log_Print (msg : string) : M unit := λ w, Ret tt (emit (EStdlog msg) w).

(** The permission bits a new file gets from [os.FileMode(perm)]: the nine
    low bits, without those of the process's umask. *)
Definition create_mode (perm umask : Z) : Z := Z.ldiff (Z.land perm 511) umask.

(** The staging file as [ioutil.WriteFile] leaves it, and a file after a
    successful [os.Chown]. *)
Definition staged_file (w : world) (tmp data : string) (perms : Z) : file :=
  match file_at w tmp with
  | Some f0 => mkFile data (f_mode f0) (f_uid f0) (f_gid f0)
  | None => mkFile data (create_mode perms (w_umask w)) (w_uid w) (w_gid w)
  end.

Definition chowned (uid gid : Z) (f : file) : file :=
  mkFile (f_data f) (f_mode f)
    (if uid =? -1 then f_uid f else uid) (if gid =? -1 then f_gid f else gid).

(** ** The system calls behind Go's [os] and [io/ioutil]

    Each returns Go's [err != nil] as a boolean (or [None] for a failed
    lookup). *)

(** [os.Stat]: the node at the path. *)
Definition os_Stat (p : string) : M (option node) := λ w, Ret (w_fs w !! p) w.

(** [os.Open]: a handle (here the path) when something is there, [nil]
    otherwise. *)
Definition os_Open (p : string) : M (option string) :=
  λ w, Ret (match w_fs w !! p with Some _ => Some p | None => None end) w.

(** The [Stat] method of an open file: an error on the [nil] handle. *)
Definition File_Stat (h : option string) : M (option node) :=
  λ w, Ret (match h with Some p => w_fs w !! p | None => None end) w.

(** The bytes of [data] from offset [off] on that come before the first
    refused offset. *)
Fixpoint read_upto (refused : nat → bool) (off : nat) (data : string) : string :=
  match data with
  | EmptyString => EmptyString
  | String c rest =>
      if refused off then EmptyString else String c (read_upto refused (S off) rest)
  end.

(** [ioutil.ReadFile] returns the data with Go's [err != nil]: the whole
    content of a regular file and no error; when the read fails on the way,
    the bytes read so far with the error; no byte and the error when nothing
    is at the path or a directory is. *)
Definition ioutil_ReadFile (p : string) : M (string * bool) :=
  λ w, match w_fs w !! p with
       | Some (NFile f) =>
           if w_fails w (OpRead p)
           then Ret (read_upto (λ off, w_fails w (OpReadAt p off)) 0 (f_data f), true) w
           else Ret (f_data f, false) w
       | _ => Ret ("", true) w
       end.

(** [ioutil.WriteFile]: a missing file is created with [perm] (before umask)
    and the owner of the process; an existing file is truncated and written
    without changing its permissions.  A refused write leaves the model's
    filesystem as it was; on a real system it may leave a shorter file at the
    same path, which is the staging path wherever the commands write. *)
Definition ioutil_WriteFile (p data : string) (perm : Z) : M bool :=
  λ w, if w_fails w (OpWrite p) then Ret true w
       else match w_fs w !! p with
            | Some NDir => Ret true w
            | Some (NFile f) =>
                Ret false (set_fs (<[p := NFile (mkFile data (f_mode f) (f_uid f) (f_gid f))]> (w_fs w)) w)
            | None =>
                Ret false (set_fs (<[p := NFile (mkFile data (create_mode perm (w_umask w)) (w_uid w) (w_gid w))]> (w_fs w)) w)
            end.

(** The directories on the way to a path, outermost first. *)
Fixpoint dir_chain (pre rest : string) : list string :=
  match rest with
  | EmptyString => if String.eqb pre "" then [] else [pre]
  | String c rest' =>
      if Ascii.eqb c slash
      then (if String.eqb pre "" then [] else [pre]) ++ dir_chain (pre ++ "/") rest'
      else dir_chain (pre ++ String c "") rest'
  end.

Fixpoint mkdir_chain (ps : list string) (w : world) : bool * world :=
  match ps with
  | [] => (false, w)
  | p :: ps' =>
      match w_fs w !! p with
      | Some NDir => mkdir_chain ps' w
      | Some (NFile _) => (true, w)
      | None =>
          if w_fails w (OpMkdir p) then (true, w)
          else mkdir_chain ps' (set_fs (<[p := NDir]> (w_fs w)) w)
      end
  end.

(** The root, the working directory and the directories above it are always
    there. *)
Definition implicit_dir (p : string) : bool :=
  forallb (λ e, String.eqb e "" || String.eqb e "." || String.eqb e "..")
    (Split slash p).

(** [os.MkdirAll]: creates the directory and the missing ones above it; a
    regular file on the way is an error.  Directory modes are not tracked. *)
Definition os_MkdirAll (p : string) (perm : Z) : M bool :=
  λ w, let '(err, w') :=
         mkdir_chain (List.filter (λ d, negb (implicit_dir d)) (dir_chain "" p)) w in
       Ret err w'.

(** [os.Chown]; an id of [-1] leaves that id as it is. *)
Definition os_Chown (p : string) (uid gid : Z) : M bool :=
  λ w, if w_fails w (OpChown p uid gid) then Ret true w
       else match w_fs w !! p with
            | None => Ret true w
            | Some NDir => Ret false w
            | Some (NFile f) =>
                Ret false (set_fs (<[p := NFile (chowned uid gid f)]> (w_fs w)) w)
            end.

(** [os.Rename] of a regular file: it replaces a regular file at the new
    path and cannot replace a directory.  (The commands never rename a
    directory; the model reports an error for one.) *)
Definition os_Rename (old new : string) : M bool :=
  λ w, if w_fails w (OpRename old new) then Ret true w
       else match w_fs w !! old with
            | Some (NFile f) =>
                match w_fs w !! new with
                | Some NDir => Ret true w
                | _ =>
                    if String.eqb old new then Ret false w
                    else Ret false (set_fs (delete old (<[new := NFile f]> (w_fs w))) w)
                end
            | _ => Ret true w
            end.

(** [os.Remove] of a regular file.  (The commands never remove a directory;
    the model reports an error for one.) *)
Definition os_Remove (p : string) : M bool :=
  λ w, if w_fails w (OpRemove p) then Ret true w
       else match w_fs w !! p with
            | Some (NFile _) => Ret false (set_fs (delete p (w_fs w)) w)
            | _ => Ret true w
            end.

Definition IsDir (n : node) : bool :=
  match n with NDir => true | NFile _ => false end.

(** ** Package-level variables set from the command line *)

Record flags := mkFlags {
  KeyOutLocation : string;
  FiletoWrite : string;
  MinFileLength : Z;
  FilePermissions : Z;
  PostExec : string;
  PrefixLocation : string;
  ConsulServer : string;
  Token : string;
  Owner : string;
  FiletoLock : string;
  LockReason : string
}.

Definition fileSuffix : string := "kvexpress".

(** ** Functions of the repository that the sources at hand do not contain *)

(** Modelled from the spec: [Log] is missing from the sources; process logging
    is a thin I/O wrapper (section 1), recorded here as the message with its
    level. *)
Definition Log (msg level : string) : M unit := λ w, Ret tt (emit (ELog msg level) w).

(** Modelled from the spec: [StatsdPanic] is missing from the sources; it
    emits the metric of a fatal path (section 1), and a fatal condition
    terminates the process with a non-zero exit (sections 6 and 7). *)
Definition StatsdPanic (key location : string) : M unit :=
  λ w, Exit 1 (emit (EStatsd key location) w).

(** Modelled from the spec: [RunCommand] is missing from the sources; the
    post-commit command is an external command executed with no arguments
    (section 6).  What the command itself does is outside the model. *)
Definition RunCommand (cmd : string) : M unit := λ w, Ret tt (emit (EExec cmd) w).

(** [strings.Count(s, sep)] for a one-byte separator. *)
Fixpoint Count (sep : ascii) (s : string) : Z :=
  match s with
  | EmptyString => 0
  | String c s' => (if Ascii.eqb c sep then 1 else 0) + Count sep s'
  end.

(** Modelled from the spec: [LengthCheck] is missing from the sources; content
    is rejected when [len(content) < minLength] (section 4.2). *)
Definition LengthCheck_bytes (data : string) (minLength : Z) : bool :=
  minLength <=? Z.of_nat (String.length data).

(** The other reading of the minimum, after the help text of the [length]
    flag in the sources ("minimum amount of lines in the file"): the lines
    are counted by their newline bytes. *)
Definition LengthCheck_lines (data : string) (minLength : Z) : bool :=
  minLength <=? Count newline data.

(** ** Collaborators and machines of the worked examples *)

(** A stand-in digest: the length of the content followed by the content. *)
Definition sample_checksum (s : string) : string :=
  FormatInt (Z.of_nat (String.length s)) 10 ++ ":" ++ s.

Definition sample_id (owner : string) : Z :=
  if String.eqb owner "root" then 0 else 1000.

Definition sample_key_data (key prefix : string) : string :=
  prefix ++ "/" ++ key ++ "/data".

Definition sample_key_checksum (key prefix : string) : string :=
  prefix ++ "/" ++ key ++ "/checksum".

(** A store that holds one value and its declared checksum. *)
Definition sample_store (data checksum : string) (key server token : string) : string :=
  if String.eqb key "kvexpress/app/data" then data
  else if String.eqb key "kvexpress/app/checksum" then checksum
  else "".

Definition no_refusal : op → bool := λ _, false.

(** An empty filesystem, umask 022, running as root. *)
Definition fresh_machine : world := mkWorld ∅ 18 0 0 no_refusal [].

(** [kvexpress out -k app -f target -l 10 -c 0640 -e postexec]. *)
Definition sample_flags (target postexec : string) : flags :=
  mkFlags "app" target 10 416 postexec "kvexpress" "localhost:8500" "" "root"
    target "maintenance".

Definition machine_with (files : list (string * node)) : world :=
  mkWorld (list_to_map files) 18 0 0 no_refusal [].

(** Ten lines, so that both readings of the minimum length accept it. *)
Definition sample_content : string :=
  Join nl ["listen=8080"; "workers=4"; "a=1"; "b=2"; "c=3"; "d=4"; "e=5"; "f=6";
           "g=7"; "h=8"] ++ nl.

(** A machine on which [/etc/app.conf] is in place and locked. *)
Definition locked_machine : world :=
  machine_with
    [("/etc", NDir);
     ("/etc/app.conf", NFile (mkFile ("listen=80" ++ nl) 416 0 0));
     ("/etc/app.conf.locked",
      NFile (mkFile ("Reason Locked: maintenance" ++ nl) 416 0 0))].

(** A system on which every read fails after delivering [cut] bytes, and the
    files of [locked_machine] on such a system. *)
Definition short_reads (cut : nat) : op → bool :=
  λ o, match o with
       | OpRead _ => true
       | OpReadAt _ off => Nat.eqb off cut
       | _ => false
       end.

Definition unreadable_machine (cut : nat) : world :=
  mkWorld (w_fs locked_machine) 18 0 0 (short_reads cut) [].

(** A system that refuses every rename. *)
Definition no_rename : op → bool :=
  λ o, match o with OpRename _ _ => true | _ => false end.

(** A machine on which [/etc/app.conf] already holds [sample_content], with
    mode 0600 and the owner 1000. *)
Definition current_machine : world :=
  machine_with
    [("/etc", NDir); ("/etc/app.conf", NFile (mkFile sample_content 384 1000 1000))].

Section Commands.

(** Capabilities of the collaborators that are out of the sources' reach: the
    content digest, the resolution of an owner name to numeric ids, the layout
    of keys in the store and the fetch from the store. *)
Variable ComputeChecksum : string → string.
Variables GetOwnerID GetGroupID : string → Z.
Variables KeyDataPath KeyChecksumPath : string → string → string.
Variable Get : string → string → string → string.

(** [LengthCheck] is missing from the sources and is a parameter of [outRun];
    [LengthCheck_bytes] and [LengthCheck_lines] above are the two candidates. *)
Variable LengthCheck : string → Z → bool.

(** Modelled from the spec: [ChecksumCompare] is missing from the sources;
    [Matches(content, expectedDigest)] is the equality of the computed digest
    with the expected one (section 4.1). *)
Definition ChecksumCompare (data checksum : string) : bool :=
  String.eqb (ComputeChecksum data) checksum.

(** ** commands/files.go *)

Definition ReadFile (filepath : string) : M string :=
  '(dat, err) ← ioutil_ReadFile filepath;
  let dat := if err : bool then "" else dat in
  ret dat.

Definition BlankLineStrip (data : list string) : M (list string) :=
  Log "in: stripping_blank_lines='true'" "debug" ;;
  ret (fold_left
         (λ (stripped : list string) str,
            if nonempty str then (stripped ++ [str])%list else stripped)
         data []).

Definition SortFile (file : string) : M string :=
  Log "sorting='true'" "debug" ;;
  lines ← BlankLineStrip (Split newline file);
  ret (Join nl (sort_Strings lines)).

Definition CheckFullPath (file : string) : M unit :=
  let targetDirectory := Dir file in
  err ← os_MkdirAll targetDirectory 493;
  when err
    (Log ("function='CheckFullPath' panic='true' file='" ++ targetDirectory ++ "'") "info" ;;
     Printf ("Panic: Could not create directories: '" ++ targetDirectory ++ "'" ++ nl) ;;
     StatsdPanic targetDirectory "create_directory").

Definition ChownFile (filepath owner : string) : M (bool * Z * Z) :=
  let oid := GetOwnerID owner in
  let gid := GetGroupID owner in
  err ← os_Chown filepath oid gid;
  if err : bool then
    Printf ("Panic: Could not chown file: '" ++ filepath ++ "'" ++ nl) ;;
    StatsdPanic filepath "chown_file" ;;
    ret (false, oid, gid)
  else ret (true, oid, gid).

Definition WriteFile (data filepath : string) (perms : Z) (owner : string) : M unit :=
  CheckFullPath filepath ;;
  let tmpFilepath := filepath ++ "." ++ fileSuffix in
  err ← ioutil_WriteFile tmpFilepath data perms;
  when err
    (Log ("function='WriteFile' panic='true' file='" ++ filepath ++ "'") "info" ;;
     Printf ("Panic: Could not write file: '" ++ filepath ++ "'" ++ nl) ;;
     StatsdPanic filepath "write_file") ;;
  '(fileChown, oid, gid) ← ChownFile tmpFilepath owner;
  err ← os_Rename tmpFilepath filepath;
  when err
    (Log ("function='Rename' panic='true' file='" ++ filepath ++ "'") "info" ;;
     Printf ("Panic: Could not rename file: '" ++ filepath ++ "'" ++ nl) ;;
     StatsdPanic filepath "rename_file") ;;
  Log ("file_wrote='true' location='" ++ filepath ++ "' permissions='"
       ++ FormatInt perms 8 ++ "'") "debug" ;;
  Log ("file_chown='" ++ FormatBool fileChown ++ "' location='" ++ filepath
       ++ "' owner='" ++ FormatInt oid 10 ++ "' group='" ++ FormatInt gid 10 ++ "'")
    "debug".

Definition CheckFiletoWrite (filename checksum : string) : M unit :=
  file ← os_Open filename;
  f ← File_Stat file;
  match f with
  | None => Log ("there is NO file at " ++ filename) "debug"
  | Some n =>
      if IsDir n then
        Log ("Can NOT write a directory " ++ filename) "info" ;;
        os_Exit 1
      else
        '(data, err) ← ioutil_ReadFile filename;
        when err
          (Log ("CheckFiletoWrite(): Error reading file: '" ++ filename ++ "'") "info") ;;
        let computedChecksum := ComputeChecksum data in
        when (String.eqb computedChecksum checksum)
          (Log ("'" ++ filename ++ "' has the same checksum. Stopping.") "info" ;;
           os_Exit 0)
  end.

Definition RemoveFile (filename : string) : M unit :=
  file ← os_Open filename;
  f ← File_Stat file;
  match f with
  | None => Log ("Could NOT stat " ++ filename) "debug"
  | Some n =>
      if IsDir n then
        Log ("Would NOT remove a directory " ++ filename) "info" ;;
        os_Exit 1
      else
        err ← os_Remove filename;
        if err : bool then Log ("Could NOT remove " ++ filename) "info"
        else Log ("Removed " ++ filename) "info"
  end.

Definition CompareFilename (file : string) : M string :=
  let compare := Base file ++ ".compare" in
  let fullPath := path_Join [Dir file; compare] in
  Log ("file='compare' fullPath='" ++ fullPath ++ "'") "debug" ;;
  ret fullPath.

Definition LastFilename (file : string) : M string :=
  let last := Base file ++ ".last" in
  let fullPath := path_Join [Dir file; last] in
  Log ("file='last' fullPath='" ++ fullPath ++ "'") "debug" ;;
  ret fullPath.

Definition blank_file : string := "This is a blank file." ++ nl.

Definition CheckLastFile (file : string) (perms : Z) (owner : string) : M unit :=
  st ← os_Stat file;
  match st with
  | None =>
      Log ("file='last' file='" ++ file ++ "' does_not_exist='true'") "debug" ;;
      WriteFile blank_file file perms owner
  | Some _ => ret tt
  end.

Definition LockFilePath (file : string) : string := file ++ ".locked".

Definition lockedFileText (cfg : flags) : string :=
  "To unlock '" ++ FiletoLock cfg ++ "' and allow kvexpress to write again:" ++ nl ++ nl
  ++ "sudo kvexpress unlock -f " ++ FiletoLock cfg ++ nl ++ nl
  ++ "Reason Locked: " ++ LockReason cfg ++ nl ++ nl.

Definition LockFileWrite (cfg : flags) (file : string) : M unit :=
  let lockedFile := LockFilePath file in
  st ← os_Stat lockedFile;
  match st with
  | None =>
      Log ("file='locked' file='" ++ lockedFile ++ "' does_not_exist='true'") "debug" ;;
      WriteFile (lockedFileText cfg) lockedFile (FilePermissions cfg) (Owner cfg)
  | Some _ =>
      Log ("file='locked' file='" ++ lockedFile ++ "' does_not_exist='false'") "info"
  end.

Definition LockFileRemove (file : string) : M unit :=
  let lockedFile := LockFilePath file in
  RemoveFile lockedFile.

Definition CheckFullFilename (file : string) : M unit :=
  when (negb (HasPrefix file "/"))
    (Println "Please supply a complete file path." ;;
     os_Exit 1).

(** ** The [out] command *)

(** Modelled from the spec: the three-argument [kvexpress.WriteFile] that
    [outRun] calls is missing from the sources; the writer of section 4.3 is
    [WriteFile] above, with the owner taken from the configuration. *)
Definition kvexpress_WriteFile (cfg : flags) (data filepath : string) (perms : Z)
  : M unit :=
  WriteFile data filepath perms (Owner cfg).

Definition checkOutFlags (cfg : flags) : M unit :=
  log_Print "out: Checking cli flags." ;;
  when (String.eqb (KeyOutLocation cfg) "")
    (Println "Need a key location in -k" ;;
     os_Exit 1) ;;
  when (String.eqb (FiletoWrite cfg) "")
    (Println "Need a file to write in -f" ;;
     os_Exit 1) ;;
  log_Print "out: Required cli flags present.".

Definition outRun (cfg : flags) : M unit :=
  checkOutFlags cfg ;;
  let key_data := KeyDataPath (KeyOutLocation cfg) (PrefixLocation cfg) in
  let key_checksum := KeyChecksumPath (KeyOutLocation cfg) (PrefixLocation cfg) in
  let KVData := Get key_data (ConsulServer cfg) (Token cfg) in
  let Checksum := Get key_checksum (ConsulServer cfg) (Token cfg) in
  let longEnough := LengthCheck KVData (MinFileLength cfg) in
  log_Print ("out: longEnough='" ++ FormatBool longEnough ++ "'") ;;
  let checksumMatch := ChecksumCompare KVData Checksum in
  log_Print ("out: checksumMatch='" ++ FormatBool checksumMatch ++ "'") ;;
  (if longEnough && checksumMatch
   then kvexpress_WriteFile cfg KVData (FiletoWrite cfg) (FilePermissions cfg)
   else log_Print "Could not write file.") ;;
  when (nonempty (PostExec cfg))
    (log_Print ("out: exec='" ++ PostExec cfg ++ "'") ;;
     RunCommand (PostExec cfg)).

(** * Properties *)

(** ** Lines: [Split] and [Join] *)

Lemma Split_not_nil sep s : Split sep s ≠ [].
Proof.
  destruct s as [|c s]; simpl; [done|].
  destruct (Ascii.eqb c sep); [done|]. by destruct (Split sep s).
Qed.

Lemma Split_no_sep sep s : Forall (λ l, has_byte sep l = false) (Split sep s).
Proof.
  induction s as [|c s IH]; simpl.
  - by repeat constructor.
  - destruct (Ascii.eqb c sep) eqn:E.
    + by constructor.
    + destruct (Split sep s) as [|l ls]; [by repeat constructor; simpl; rewrite E|].
      inversion IH; subst. constructor; [|done]. simpl. by rewrite E.
Qed.

Lemma Split_line sep l : has_byte sep l = false → Split sep l = [l].
Proof.
  induction l as [|c l IH]; simpl; [done|].
  intros [E Hl]%orb_false_elim. rewrite E, IH; done.
Qed.

Lemma Split_app_sep sep l rest :
  has_byte sep l = false →
  Split sep (l ++ String sep rest) = l :: Split sep rest.
Proof.
  induction l as [|c l IH]; simpl.
  - intros _. by rewrite Ascii.eqb_refl.
  - intros [E Hl]%orb_false_elim. rewrite E, IH; done.
Qed.

Lemma Split_Join sep ls :
  ls ≠ [] → Forall (λ l, has_byte sep l = false) ls →
  Split sep (Join (String sep "") ls) = ls.
Proof.
  induction ls as [|a ls IH]; [done|]. intros _ Hall.
  inversion Hall as [|? ? Ha Hls]; subst.
  destruct ls as [|b ls]; simpl.
  - by apply Split_line.
  - change (String sep "" ++ ?x) with (String sep x).
    rewrite Split_app_sep by done. f_equal. by apply IH.
Qed.

Lemma strip_loop (data acc : list string) :
  fold_left (λ (stripped : list string) str,
               if nonempty str then (stripped ++ [str])%list else stripped) data acc
  = (acc ++ filter (λ l, l ≠ "") data)%list.
Proof.
  revert acc. induction data as [|x data IH]; intros acc; simpl.
  - by rewrite app_nil_r.
  - rewrite IH. unfold nonempty. destruct (String.eqb_spec x "") as [->|Hx].
    + by rewrite filter_cons_False by naive_solver.
    + rewrite filter_cons_True by done. simpl. by rewrite <- app_assoc.
Qed.

Lemma sort_Strings_sorted l : Sorted String.le (sort_Strings l).
Proof. apply (Sorted_merge_sort String.le). Qed.

Lemma sort_Strings_perm l : sort_Strings l ≡ₚ l.
Proof. apply merge_sort_Permutation. Qed.

Lemma sort_Strings_fixed l : Sorted String.le l → sort_Strings l = l.
Proof.
  intros Hl. apply (Sorted_unique String.le); [apply sort_Strings_sorted|done|].
  apply sort_Strings_perm.
Qed.

(** What [SortFile] returns, and that it only adds to the log. *)
Lemma SortFile_run (s : string) (w : world) :
  ∃ w', SortFile s w
        = Ret (Join nl (sort_Strings (filter (λ l, l ≠ "") (Split newline s)))) w'
        ∧ w_fs w' = w_fs w.
Proof.
  eexists. unfold SortFile, BlankLineStrip, mbind, M_bind, bind, Log, ret. simpl.
  rewrite strip_loop. simpl. split; reflexivity.
Qed.

(** C10. For every input, [SortFile] returns the input's non-empty lines in
    sorted order, joined by newlines; a non-empty output has no blank line, and
    sorting the output again returns it unchanged. *)
Theorem SortFile_sorted_stripped_idempotent (s : string) (w : world) :
  ∃ lines out w',
    SortFile s w = Ret out w' ∧ w_fs w' = w_fs w ∧
    out = Join nl lines ∧
    Sorted String.le lines ∧
    lines ≡ₚ filter (λ l, l ≠ "") (Split newline s) ∧
    (out = "" ∨ "" ∉ Split newline out) ∧
    (∀ w2, ∃ w3, SortFile out w2 = Ret out w3).
Proof.
  destruct (SortFile_run s w) as (w' & Hrun & Hfs).
  set (lines := sort_Strings (filter (λ l, l ≠ "") (Split newline s))) in *.
  assert (Hperm : lines ≡ₚ filter (λ l, l ≠ "") (Split newline s))
    by apply sort_Strings_perm.
  assert (Hsorted : Sorted String.le lines) by apply sort_Strings_sorted.
  assert (Hne : Forall (λ l, l ≠ "") lines).
  { rewrite Hperm. apply Forall_forall. intros x Hx.
    by apply list_elem_of_filter in Hx as [? _]. }
  assert (Hfree : Forall (λ l, has_byte newline l = false) lines).
  { rewrite Hperm. apply Forall_forall. intros x Hx.
    apply list_elem_of_filter in Hx as [_ Hx].
    pose proof (Split_no_sep newline s) as Hall.
    rewrite Forall_forall in Hall. by apply Hall. }
  assert (Hsplit : lines ≠ [] → Split newline (Join nl lines) = lines).
  { intros Hnil. by apply Split_Join. }
  exists lines, (Join nl lines), w'. repeat split; try done.
  - destruct lines as [|l ls] eqn:El; [by left|right].
    rewrite Hsplit by done. intros Hin.
    rewrite Forall_forall in Hne. by apply (Hne "").
  - intros w2. destruct (SortFile_run (Join nl lines) w2) as (w3 & Hrun2 & _).
    exists w3. rewrite Hrun2. do 2 f_equal.
    destruct lines as [|l ls] eqn:El; [done|].
    rewrite Hsplit by done.
    assert (Hfilter : filter (λ l, l ≠ "") (l :: ls) = l :: ls).
    { clear -Hne. induction Hne as [|x xs Hx _ IH]; [done|].
      by rewrite filter_cons_True, IH. }
    rewrite Hfilter. by apply sort_Strings_fixed.
Qed.

(** ** The filesystem under the system calls *)

Lemma same_env_refl w : same_env w w.
Proof. by repeat split. Qed.

Lemma same_env_trans w1 w2 w3 : same_env w1 w2 → same_env w2 w3 → same_env w1 w3.
Proof. unfold same_env. intros (?&?&?&?) (?&?&?&?). repeat split; congruence. Qed.

Lemma only_dirs_added_refl w : only_dirs_added w w.
Proof. intros q. by left. Qed.

Lemma only_dirs_added_trans w1 w2 w3 :
  only_dirs_added w1 w2 → only_dirs_added w2 w3 → only_dirs_added w1 w3.
Proof.
  intros H12 H23 q. destruct (H12 q) as [E12|[N1 D2]], (H23 q) as [E23|[N2 D3]].
  - left. congruence.
  - right. split; congruence.
  - right. split; congruence.
  - congruence.
Qed.

Lemma only_dirs_added_file_at w w' q :
  only_dirs_added w w' → file_at w' q = file_at w q.
Proof.
  intros H. unfold file_at. destruct (H q) as [->|[-> ->]]; done.
Qed.

Lemma mkdir_chain_spec ps w :
  same_env w (mkdir_chain ps w).2 ∧ only_dirs_added w (mkdir_chain ps w).2
  ∧ w_trace (mkdir_chain ps w).2 = w_trace w.
Proof.
  revert w. induction ps as [|p ps IH]; intros w; simpl.
  - split; [apply same_env_refl|]. split; [apply only_dirs_added_refl|done].
  - destruct (w_fs w !! p) as [[|f]|] eqn:Hp; simpl.
    + apply IH.
    + split; [apply same_env_refl|]. split; [apply only_dirs_added_refl|done].
    + destruct (w_fails w (OpMkdir p)); simpl.
      { split; [apply same_env_refl|]. split; [apply only_dirs_added_refl|done]. }
      destruct (IH (set_fs (<[p:=NDir]> (w_fs w)) w)) as (He & Hd & Ht).
      split; [|split].
      * eapply same_env_trans; [|exact He]. by repeat split.
      * eapply only_dirs_added_trans; [|exact Hd]. intros q. simpl.
        destruct (decide (p = q)) as [->|Hne].
        -- right. by rewrite lookup_insert_eq.
        -- left. by rewrite lookup_insert_ne.
      * by rewrite Ht.
Qed.

(** [CheckFullPath] makes directories at most; it ends the run with code 1
    when it cannot. *)
Lemma CheckFullPath_spec file w :
  match CheckFullPath file w with
  | Ret _ w1 => same_env w w1 ∧ only_dirs_added w w1 ∧ w_trace w1 = w_trace w
  | Exit code w1 => code = 1 ∧ same_env w w1 ∧ only_dirs_added w w1
  end.
Proof.
  unfold CheckFullPath, os_MkdirAll, mbind, M_bind, bind.
  pose proof (mkdir_chain_spec
                (List.filter (λ d, negb (implicit_dir d)) (dir_chain "" (Dir file))) w)
    as (He & Hd & Ht).
  destruct (mkdir_chain _ w) as [[|] w1]; simpl in *.
  - split; [done|]. unfold same_env, only_dirs_added in *. simpl. done.
  - done.
Qed.

Lemma length_append (a b : string) :
  String.length (a ++ b) = (String.length a + String.length b)%nat.
Proof. induction a as [|c a IH]; simpl; [done|]. by rewrite IH. Qed.

Lemma staging_path_fresh (p suffix : string) : suffix ≠ "" → p ++ suffix ≠ p.
Proof.
  intros Hs Heq. apply (f_equal String.length) in Heq.
  rewrite length_append in Heq. destruct suffix; [done|]. simpl in Heq. lia.
Qed.

Lemma ioutil_WriteFile_cases p data perm w :
  ioutil_WriteFile p data perm w = Ret true w
  ∨ (w_fs w !! p ≠ Some NDir
     ∧ ioutil_WriteFile p data perm w
       = Ret false (set_fs (<[p := NFile (staged_file w p data perm)]> (w_fs w)) w)).
Proof.
  unfold ioutil_WriteFile, staged_file, file_at.
  destruct (w_fails w (OpWrite p)); [by left|].
  destruct (w_fs w !! p) as [[|f]|]; [by left|by right..].
Qed.

Lemma ChownFile_cases p owner w f :
  w_fs w !! p = Some (NFile f) →
  (∃ w', ChownFile p owner w = Exit 1 w' ∧ w_fs w' = w_fs w ∧ same_env w w')
  ∨ ChownFile p owner w
    = Ret (true, GetOwnerID owner, GetGroupID owner)
        (set_fs (<[p := NFile (chowned (GetOwnerID owner) (GetGroupID owner) f)]> (w_fs w)) w).
Proof.
  intros Hp. unfold ChownFile, os_Chown, mbind, M_bind, bind.
  destruct (w_fails w (OpChown p (GetOwnerID owner) (GetGroupID owner))).
  - left. eexists. simpl. split; [reflexivity|]. by split.
  - rewrite Hp. by right.
Qed.

Lemma os_Rename_cases old new w f :
  w_fs w !! old = Some (NFile f) → old ≠ new →
  os_Rename old new w = Ret true w
  ∨ (w_fs w !! new ≠ Some NDir
     ∧ os_Rename old new w
       = Ret false (set_fs (delete old (<[new := NFile f]> (w_fs w))) w)).
Proof.
  intros Hold Hne. unfold os_Rename.
  destruct (w_fails w (OpRename old new)); [by left|]. rewrite Hold.
  destruct (String.eqb_spec old new) as [|_]; [done|].
  destruct (w_fs w !! new) as [[|g]|]; [by left|by right..].
Qed.

Lemma staged_file_dirs w w1 tmp data perms :
  same_env w w1 → only_dirs_added w w1 →
  w_fs w1 !! tmp ≠ Some NDir →
  staged_file w1 tmp data perms = staged_file w tmp data perms.
Proof.
  intros (Hu & Hi & Hg & _) Hd Hn. unfold staged_file.
  rewrite (only_dirs_added_file_at w w1 tmp Hd). by rewrite Hu, Hi, Hg.
Qed.
Lemma WriteFile_spec data filepath perms owner w :
  let tmp := filepath ++ "." ++ fileSuffix in
  let committed :=
    chowned (GetOwnerID owner) (GetGroupID owner) (staged_file w tmp data perms) in
  match WriteFile data filepath perms owner w with
  | Exit code w' =>
      code = 1 ∧ same_env w w' ∧ ∀ q, q ≠ tmp → file_at w' q = file_at w q
  | Ret _ w' =>
      ∃ w1 w2 w3,
        CheckFullPath filepath w = Ret tt w1 ∧
        ioutil_WriteFile tmp data perms w1 = Ret false w2 ∧
        ChownFile tmp owner w2 = Ret (true, GetOwnerID owner, GetGroupID owner) w3 ∧
        os_Rename tmp filepath w3 = Ret false (set_fs (w_fs w') w3) ∧
        w_fs w2 = <[tmp := NFile (staged_file w tmp data perms)]> (w_fs w1) ∧
        w_fs w3 = <[tmp := NFile committed]> (w_fs w1) ∧
        w_fs w' = <[filepath := NFile committed]> (delete tmp (w_fs w1)) ∧
        only_dirs_added w w1 ∧ same_env w w'
  end.
Proof.
  intros tmp committed.
  assert (Hfresh : tmp ≠ filepath) by (by apply staging_path_fresh).
  unfold WriteFile, mbind, M_bind, bind.
  pose proof (CheckFullPath_spec filepath w) as Hc.
  destruct (CheckFullPath filepath w) as [[] w1|code w1].
  2:{ destruct Hc as (-> & He & Hd). split; [done|]. split; [done|].
      intros q _. by apply only_dirs_added_file_at. }
  destruct Hc as (He & Hd & Ht).
  fold tmp. clearbody tmp.
  destruct (ioutil_WriteFile_cases tmp data perms w1) as [Hw|[Hnd Hw]].
  { rewrite Hw; simpl. split; [done|]. split; [by destruct He as (?&?&?&?)|].
    intros q _. unfold file_at. simpl. by apply only_dirs_added_file_at. }
  rewrite (staged_file_dirs w w1) in Hw by done. rewrite Hw; simpl.
  set (w2 := set_fs (<[tmp:=NFile (staged_file w tmp data perms)]> (w_fs w1)) w1).
  assert (H2 : w_fs w2 !! tmp = Some (NFile (staged_file w tmp data perms)))
    by apply lookup_insert_eq.
  destruct (ChownFile_cases tmp owner w2 _ H2) as [(w3 & Hc & Hfs & He3)|Hc]; rewrite Hc.
  { split; [done|]. split.
    - eapply same_env_trans; [exact He|]. eapply same_env_trans; [|exact He3]. done.
    - intros q Hq. unfold file_at. rewrite Hfs. simpl. rewrite lookup_insert_ne by done.
      by apply only_dirs_added_file_at. }
  fold committed.
  set (w3 := set_fs (<[tmp:=NFile committed]> (w_fs w2)) w2).
  assert (H3 : w_fs w3 !! tmp = Some (NFile committed)) by apply lookup_insert_eq.
  destruct (os_Rename_cases tmp filepath w3 _ H3 Hfresh) as [Hr|[Hnd3 Hr]]; rewrite Hr; simpl.
  { split; [done|]. split; [by destruct He as (?&?&?&?)|].
    intros q Hq. unfold file_at. simpl. rewrite !lookup_insert_ne by done.
    by apply only_dirs_added_file_at. }
  exists w1, w2, w3. split; [done|]. split; [exact Hw|]. split; [exact Hc|].
  split; [exact Hr|]. split; [done|].
  split; [by simpl; rewrite insert_insert_eq|].
  split; [|split; [done|by destruct He as (?&?&?&?)]].
  rewrite insert_insert_eq. rewrite delete_insert_ne by done.
  by rewrite delete_insert_eq.
Qed.

Lemma create_mode_exact perms umask :
  0 ≤ perms ≤ 511 → Z.land perms umask = 0 → create_mode perms umask = perms.
Proof.
  intros Hr Hu. unfold create_mode.
  change 511 with (Z.ones 9). rewrite Z.land_ones by lia.
  rewrite Z.mod_small by (change (2 ^ 9) with 512; lia).
  apply Z.bits_inj'. intros n Hn. rewrite Z.ldiff_spec.
  apply (f_equal (λ z, Z.testbit z n)) in Hu.
  rewrite Z.land_spec, Z.bits_0 in Hu.
  destruct (Z.testbit perms n), (Z.testbit umask n); done.
Qed.

Lemma ReadFile_file p w f :
  w_fs w !! p = Some (NFile f) → w_fails w (OpRead p) = false →
  ReadFile p w = Ret (f_data f) w.
Proof.
  intros Hp Hr. unfold ReadFile, ioutil_ReadFile, mbind, M_bind, bind.
  by rewrite Hp, Hr.
Qed.

Lemma file_at_Some w p f : file_at w p = Some f ↔ w_fs w !! p = Some (NFile f).
Proof.
  unfold file_at. destruct (w_fs w !! p) as [[|g]|]; split; intros H; by simplify_eq.
Qed.

(** C1 (amended). [WriteFile] stages, then commits by one rename: a run that
    ends early ends with exit code 1 and the target file as it was; a run that
    returns went through the directory check, the write of the whole content
    to the staging file [filepath.kvexpress], the change of owner of the
    staging file and the rename, in this order, with the target file as it was
    until the rename.  After the rename the target holds exactly the content
    and the staging file is gone.  The target's permission bits are those of
    the staging file: the requested ones without the bits of the umask and
    above the low nine when the staging file was created by this run (so the
    requested ones when they lie within 0777 and share no bit with the umask),
    and those of a staging file that was already there otherwise. *)
Theorem WriteFile_commit_atomic data filepath perms owner w :
  let tmp := filepath ++ "." ++ fileSuffix in
  let committed :=
    chowned (GetOwnerID owner) (GetGroupID owner) (staged_file w tmp data perms) in
  match WriteFile data filepath perms owner w with
  | Exit code w' => code = 1 ∧ file_at w' filepath = file_at w filepath
  | Ret _ w' =>
      ∃ w1 w2 w3,
        CheckFullPath filepath w = Ret tt w1 ∧
        ioutil_WriteFile tmp data perms w1 = Ret false w2 ∧
        ChownFile tmp owner w2 = Ret (true, GetOwnerID owner, GetGroupID owner) w3 ∧
        os_Rename tmp filepath w3 = Ret false (set_fs (w_fs w') w3) ∧
        file_at w2 tmp = Some (staged_file w tmp data perms) ∧
        file_at w3 tmp = Some committed ∧
        file_at w1 filepath = file_at w filepath ∧
        file_at w2 filepath = file_at w filepath ∧
        file_at w3 filepath = file_at w filepath ∧
        file_at w' filepath = Some committed ∧
        w_fs w' !! tmp = None ∧
        f_data committed = data ∧
        (w_fails w' (OpRead filepath) = false → ReadFile filepath w' = Ret data w') ∧
        (∀ f0, file_at w tmp = Some f0 → f_mode committed = f_mode f0) ∧
        (file_at w tmp = None → f_mode committed = create_mode perms (w_umask w)) ∧
        (file_at w tmp = None → 0 ≤ perms ≤ 511 → Z.land perms (w_umask w) = 0 →
         f_mode committed = perms)
  end.
Proof.
  intros tmp committed.
  assert (Hfresh : tmp ≠ filepath) by (by apply staging_path_fresh).
  pose proof (WriteFile_spec data filepath perms owner w) as Hspec.
  cbv zeta in Hspec. fold tmp in Hspec. fold committed in Hspec.
  destruct (WriteFile data filepath perms owner w) as [[] w'|code w'].
  2:{ destruct Hspec as (-> & _ & Hq). split; [done|]. by apply Hq. }
  destruct Hspec as (w1 & w2 & w3 & Hc & Hw & Hch & Hr & H2 & H3 & H' & Hd & He).
  assert (Ht1 : file_at w1 filepath = file_at w filepath)
    by (by apply only_dirs_added_file_at).
  exists w1, w2, w3. repeat (split; [done|]).
  split; [apply file_at_Some; rewrite H2; apply lookup_insert_eq|].
  split; [apply file_at_Some; rewrite H3; apply lookup_insert_eq|].
  split; [done|].
  split; [unfold file_at in *; by rewrite H2, lookup_insert_ne|].
  split; [unfold file_at in *; by rewrite H3, lookup_insert_ne|].
  assert (Hfin : w_fs w' !! filepath = Some (NFile committed))
    by (rewrite H'; apply lookup_insert_eq).
  split; [by apply file_at_Some|].
  split; [rewrite H', lookup_insert_ne, lookup_delete_eq; done|].
  assert (Hdata : f_data committed = data).
  { unfold committed, chowned, staged_file. simpl. by destruct (file_at w tmp). }
  split; [done|].
  split; [intros Hread; by rewrite (ReadFile_file _ _ _ Hfin Hread), Hdata|].
  split; [intros f0 Hf0; unfold committed, chowned, staged_file; simpl; by rewrite Hf0|].
  assert (Hmode : file_at w tmp = None → f_mode committed = create_mode perms (w_umask w)).
  { intros Hnone. unfold committed, chowned, staged_file. simpl. by rewrite Hnone. }
  split; [done|].
  intros Hnone Hrange Humask. rewrite Hmode by done. by apply create_mode_exact.
Qed.

(** What a returned [WriteFile] leaves behind. *)
Lemma WriteFile_Ret data filepath perms owner w w' :
  WriteFile data filepath perms owner w = Ret tt w' →
  ∃ f, w_fs w' !! filepath = Some (NFile f) ∧ f_data f = data
       ∧ w_fs w' !! (filepath ++ "." ++ fileSuffix) = None
       ∧ same_env w w'
       ∧ ∀ q, q ≠ filepath → q ≠ filepath ++ "." ++ fileSuffix →
              file_at w' q = file_at w q.
Proof.
  intros Hrun. pose proof (WriteFile_spec data filepath perms owner w) as Hspec.
  cbv zeta in Hspec. rewrite Hrun in Hspec.
  destruct Hspec as (w1 & w2 & w3 & _ & _ & _ & _ & _ & _ & H' & Hd & He).
  assert (Hfresh : filepath ++ "." ++ fileSuffix ≠ filepath)
    by (by apply staging_path_fresh).
  eexists. split; [rewrite H'; apply lookup_insert_eq|].
  split; [unfold chowned, staged_file; simpl; by case_match|].
  split; [rewrite H', lookup_insert_ne, lookup_delete_eq; done|].
  split; [done|].
  intros q Hq1 Hq2. unfold file_at. rewrite H', lookup_insert_ne, lookup_delete_ne by done.
  by apply only_dirs_added_file_at.
Qed.

(** ** Reading *)

Lemma ioutil_ReadFile_cases p w :
  match w_fs w !! p with
  | Some (NFile f) =>
      if w_fails w (OpRead p)
      then ioutil_ReadFile p w
           = Ret (read_upto (λ off, w_fails w (OpReadAt p off)) 0 (f_data f), true) w
      else ioutil_ReadFile p w = Ret (f_data f, false) w
  | _ => ioutil_ReadFile p w = Ret ("", true) w
  end.
Proof.
  unfold ioutil_ReadFile. destruct (w_fs w !! p) as [[|f]|]; [done| |done].
  by destruct (w_fails w (OpRead p)).
Qed.

Lemma ReadFile_failed p w dat w' :
  ioutil_ReadFile p w = Ret (dat, true) w' → ReadFile p w = Ret "" w'.
Proof. intros Hfail. unfold ReadFile, mbind, M_bind, bind. by rewrite Hfail. Qed.

Lemma read_upto_prefix refused off data :
  ∃ rest, data = read_upto refused off data ++ rest.
Proof.
  revert off. induction data as [|c data IH]; intros off; simpl read_upto.
  - by exists "".
  - destruct (refused off); [by eexists|].
    destruct (IH (S off)) as (rest & Hrest). exists rest.
    change (String c (read_upto refused (S off) data) ++ rest)
      with (String c (read_upto refused (S off) data ++ rest)).
    by rewrite <- Hrest.
Qed.

(** C9. Whenever the underlying read fails, [ReadFile] returns the empty
    string and changes nothing, whatever the failed read had delivered: so it
    does when nothing is at the path, when a directory is, and when the system
    refuses the read of a file.  That is also its answer for a file with empty
    content, so the answer alone does not tell the cases apart; an answer that
    is not empty is the whole content of a file that was read without an
    error. *)
Theorem ReadFile_failure_is_empty (p : string) (w : world) :
  (∀ dat w', ioutil_ReadFile p w = Ret (dat, true) w' → ReadFile p w = Ret "" w)
  ∧ (w_fs w !! p = None → ReadFile p w = Ret "" w)
  ∧ (w_fs w !! p = Some NDir → ReadFile p w = Ret "" w)
  ∧ (w_fails w (OpRead p) = true → ReadFile p w = Ret "" w)
  ∧ (∀ f, w_fs w !! p = Some (NFile f) → f_data f = "" → ReadFile p w = Ret "" w)
  ∧ (∀ s, ReadFile p w = Ret s w → s ≠ "" →
          ∃ f, w_fs w !! p = Some (NFile f) ∧ f_data f = s
               ∧ w_fails w (OpRead p) = false)
  ∧ ∃ s, ReadFile p w = Ret s w.
Proof.
  pose proof (ioutil_ReadFile_cases p w) as Hcases.
  assert (Hfailed : ∀ dat w', ioutil_ReadFile p w = Ret (dat, true) w' →
                              ReadFile p w = Ret "" w).
  { intros dat w' Hfail. rewrite (ReadFile_failed _ _ _ _ Hfail). f_equal.
    destruct (w_fs w !! p) as [[|f]|]; [congruence| |congruence].
    destruct (w_fails w (OpRead p)); congruence. }
  split; [done|].
  split; [intros Hp; rewrite Hp in Hcases; by apply (Hfailed "" w)|].
  split; [intros Hp; rewrite Hp in Hcases; by apply (Hfailed "" w)|].
  split.
  { intros Hr. destruct (w_fs w !! p) as [[|f]|]; [by apply (Hfailed "" w)|
                                                   |by apply (Hfailed "" w)].
    rewrite Hr in Hcases. by eapply Hfailed. }
  split.
  { intros f Hp Hdata. rewrite Hp in Hcases.
    destruct (w_fails w (OpRead p)) eqn:Hr; [by eapply Hfailed|].
    by rewrite (ReadFile_file p w f Hp Hr), Hdata. }
  split.
  { intros s Hrun Hs. destruct (w_fs w !! p) as [[|f]|] eqn:Hp.
    - rewrite (Hfailed "" w Hcases) in Hrun. congruence.
    - destruct (w_fails w (OpRead p)) eqn:Hr.
      + rewrite (Hfailed _ w Hcases) in Hrun. congruence.
      + rewrite (ReadFile_file p w f Hp Hr) in Hrun. exists f. split; [done|].
        split; [congruence|done].
    - rewrite (Hfailed "" w Hcases) in Hrun. congruence. }
  destruct (w_fs w !! p) as [[|f]|] eqn:Hp.
  - exists "". by apply (Hfailed "" w).
  - destruct (w_fails w (OpRead p)) eqn:Hr.
    + exists "". by eapply Hfailed.
    + exists (f_data f). by apply ReadFile_file.
  - exists "". by apply (Hfailed "" w).
Qed.

(** ** The change gate *)

Lemma CheckFiletoWrite_file filename checksum w f seen err :
  w_fs w !! filename = Some (NFile f) →
  ioutil_ReadFile filename w = Ret (seen, err) w →
  let w1 := if err
            then emit (ELog ("CheckFiletoWrite(): Error reading file: '" ++ filename ++ "'")
                         "info") w
            else w in
  CheckFiletoWrite filename checksum w
  = if String.eqb (ComputeChecksum seen) checksum
    then Exit 0 (emit (ELog ("'" ++ filename ++ "' has the same checksum. Stopping.") "info")
                   w1)
    else Ret tt w1.
Proof.
  intros Hf Hread w1. subst w1.
  unfold CheckFiletoWrite, os_Open, File_Stat, mbind, M_bind, bind.
  repeat first [rewrite Hf | rewrite Hread
                | progress cbv beta iota delta [IsDir when ret Log os_Exit]].
  destruct err; cbv beta iota;
    destruct (String.eqb (ComputeChecksum seen) checksum); done.
Qed.

Lemma ioutil_ReadFile_world p w : ∃ seen err, ioutil_ReadFile p w = Ret (seen, err) w.
Proof.
  pose proof (ioutil_ReadFile_cases p w) as Hcases.
  destruct (w_fs w !! p) as [[|f]|]; [by eexists _, _| |by eexists _, _].
  destruct (w_fails w (OpRead p)); by eexists _, _.
Qed.

Lemma CheckFiletoWrite_reads_only filename checksum w :
  w_fs (final (CheckFiletoWrite filename checksum w)) = w_fs w.
Proof.
  destruct (w_fs w !! filename) as [[|f]|] eqn:Hf.
  - unfold CheckFiletoWrite, os_Open, File_Stat, mbind, M_bind, bind.
    repeat first [rewrite Hf | progress cbv beta iota delta [IsDir when ret Log os_Exit]].
    done.
  - destruct (ioutil_ReadFile_world filename w) as (seen & err & Hread).
    rewrite (CheckFiletoWrite_file _ checksum _ _ _ _ Hf Hread). cbv zeta.
    destruct (String.eqb (ComputeChecksum seen) checksum), err; done.
  - unfold CheckFiletoWrite, os_Open, File_Stat, mbind, M_bind, bind.
    repeat first [rewrite Hf | progress cbv beta iota delta [IsDir when ret Log os_Exit]].
    done.
Qed.

(** ** The snapshot file *)

(** C6 (amended). [CheckLastFile] does not store committed content: when
    nothing is at the path it creates the file through [WriteFile] with the
    placeholder text, whether or not anything was committed; when something is
    there it changes nothing. *)
Theorem CheckLastFile_creates_placeholder (file : string) (perms : Z) (owner : string)
    (w : world) :
  (w_fs w !! file = None →
     CheckLastFile file perms owner w
     = WriteFile blank_file file perms owner
         (emit (ELog ("file='last' file='" ++ file ++ "' does_not_exist='true'") "debug") w)
     ∧ ∀ w', CheckLastFile file perms owner w = Ret tt w' →
             ∃ f, w_fs w' !! file = Some (NFile f) ∧ f_data f = blank_file)
  ∧ (is_Some (w_fs w !! file) → CheckLastFile file perms owner w = Ret tt w).
Proof.
  split.
  - intros Hnone.
    assert (Heq : CheckLastFile file perms owner w
                  = WriteFile blank_file file perms owner
                      (emit (ELog ("file='last' file='" ++ file ++ "' does_not_exist='true'")
                               "debug") w)).
    { unfold CheckLastFile, os_Stat, mbind, M_bind, bind. by rewrite Hnone. }
    split; [done|]. intros w' Hrun. rewrite Heq in Hrun.
    destruct (WriteFile_Ret _ _ _ _ _ _ Hrun) as (f & Hf & Hdata & _). by exists f.
  - intros [n Hn]. unfold CheckLastFile, os_Stat, mbind, M_bind, bind. by rewrite Hn.
Qed.

(** ** The lock marker *)

Lemma RemoveFile_cases filename w :
  match w_fs w !! filename with
  | None =>
      RemoveFile filename w
      = Ret tt (emit (ELog ("Could NOT stat " ++ filename) "debug") w)
  | Some NDir =>
      RemoveFile filename w
      = Exit 1 (emit (ELog ("Would NOT remove a directory " ++ filename) "info") w)
  | Some (NFile _) =>
      if w_fails w (OpRemove filename)
      then RemoveFile filename w
           = Ret tt (emit (ELog ("Could NOT remove " ++ filename) "info") w)
      else RemoveFile filename w
           = Ret tt (emit (ELog ("Removed " ++ filename) "info")
                       (set_fs (delete filename (w_fs w)) w))
  end.
Proof.
  unfold RemoveFile, os_Open, File_Stat, os_Remove, mbind, M_bind, bind.
  destruct (w_fs w !! filename) as [[|f]|] eqn:Hf;
    repeat first [rewrite Hf | progress cbv beta iota delta [IsDir Log os_Exit]];
    try done.
  destruct (w_fails w (OpRemove filename)); done.
Qed.

Lemma LockFileWrite_present cfg file w :
  is_Some (w_fs w !! LockFilePath file) →
  LockFileWrite cfg file w
  = Ret tt (emit (ELog ("file='locked' file='" ++ LockFilePath file
                        ++ "' does_not_exist='false'") "info") w).
Proof.
  intros [n Hn]. unfold LockFileWrite, os_Stat, mbind, M_bind, bind. by rewrite Hn.
Qed.

Lemma LockFileWrite_absent cfg file w :
  w_fs w !! LockFilePath file = None →
  LockFileWrite cfg file w
  = WriteFile (lockedFileText cfg) (LockFilePath file) (FilePermissions cfg) (Owner cfg)
      (emit (ELog ("file='locked' file='" ++ LockFilePath file
                   ++ "' does_not_exist='true'") "debug") w).
Proof.
  intros Hn. unfold LockFileWrite, os_Stat, mbind, M_bind, bind. by rewrite Hn.
Qed.


(** ** The [out] command *)

Lemma checkOutFlags_present cfg w :
  KeyOutLocation cfg ≠ "" → FiletoWrite cfg ≠ "" →
  checkOutFlags cfg w
  = Ret tt (emit (EStdlog "out: Required cli flags present.")
              (emit (EStdlog "out: Checking cli flags.") w)).
Proof.
  intros Hk Hf. unfold checkOutFlags, mbind, M_bind, bind, log_Print.
  destruct (String.eqb_spec (KeyOutLocation cfg) "") as [|_]; [done|].
  destruct (String.eqb_spec (FiletoWrite cfg) "") as [|_]; [done|]. done.
Qed.

Lemma checkOutFlags_missing cfg w :
  KeyOutLocation cfg = "" ∨ FiletoWrite cfg = "" →
  ∃ w', checkOutFlags cfg w = Exit 1 w' ∧ w_fs w' = w_fs w.
Proof.
  intros Hmiss. unfold checkOutFlags, mbind, M_bind, bind, log_Print.
  destruct (String.eqb_spec (KeyOutLocation cfg) "") as [|Hk].
  { eexists. split; [reflexivity|done]. }
  destruct (String.eqb_spec (FiletoWrite cfg) "") as [|Hf].
  { eexists. split; [reflexivity|done]. }
  by destruct Hmiss.
Qed.

(** What [outRun] does once the flags are there: the two checks decide
    between the write and a log line, and the command configured in
    [PostExec] runs after either. *)
Lemma outRun_unfold cfg w :
  KeyOutLocation cfg ≠ "" → FiletoWrite cfg ≠ "" →
  let KVData := Get (KeyDataPath (KeyOutLocation cfg) (PrefixLocation cfg))
                  (ConsulServer cfg) (Token cfg) in
  let Checksum := Get (KeyChecksumPath (KeyOutLocation cfg) (PrefixLocation cfg))
                    (ConsulServer cfg) (Token cfg) in
  let longEnough := LengthCheck KVData (MinFileLength cfg) in
  let checksumMatch := ChecksumCompare KVData Checksum in
  let w1 :=
    emit (EStdlog ("out: checksumMatch='" ++ FormatBool checksumMatch ++ "'"))
      (emit (EStdlog ("out: longEnough='" ++ FormatBool longEnough ++ "'"))
         (emit (EStdlog "out: Required cli flags present.")
            (emit (EStdlog "out: Checking cli flags.") w))) in
  outRun cfg w
  = ((if longEnough && checksumMatch
      then WriteFile KVData (FiletoWrite cfg) (FilePermissions cfg) (Owner cfg)
      else log_Print "Could not write file.") ;;
     when (nonempty (PostExec cfg))
       (log_Print ("out: exec='" ++ PostExec cfg ++ "'") ;;
        RunCommand (PostExec cfg))) w1.
Proof.
  intros Hk Hf. cbv zeta. unfold outRun.
  unfold mbind at 1, M_bind at 1, bind at 1. rewrite checkOutFlags_present by done.
  reflexivity.
Qed.

Lemma post_exec_fs cfg w :
  ∃ w', when (nonempty (PostExec cfg))
          (log_Print ("out: exec='" ++ PostExec cfg ++ "'") ;; RunCommand (PostExec cfg)) w
        = Ret tt w'
        ∧ w_fs w' = w_fs w
        ∧ (∀ e, e ∈ w_trace w → e ∈ w_trace w')
        ∧ (PostExec cfg ≠ "" → EExec (PostExec cfg) ∈ w_trace w').
Proof.
  unfold when, nonempty. destruct (String.eqb_spec (PostExec cfg) "") as [He|Hne]; simpl.
  - exists w. by repeat split.
  - eexists. split; [reflexivity|]. split; [done|]. simpl. split.
    + intros e He. rewrite !elem_of_app. auto.
    + intros _. rewrite !elem_of_app, !list_elem_of_singleton. auto.
Qed.

(** A rejected apply: nothing is written, the run returns, and the command
    configured in [PostExec] has run all the same. *)
Lemma outRun_rejected cfg w :
  KeyOutLocation cfg ≠ "" → FiletoWrite cfg ≠ "" →
  LengthCheck (Get (KeyDataPath (KeyOutLocation cfg) (PrefixLocation cfg))
                 (ConsulServer cfg) (Token cfg)) (MinFileLength cfg)
  && ChecksumCompare (Get (KeyDataPath (KeyOutLocation cfg) (PrefixLocation cfg))
                        (ConsulServer cfg) (Token cfg))
       (Get (KeyChecksumPath (KeyOutLocation cfg) (PrefixLocation cfg))
          (ConsulServer cfg) (Token cfg)) = false →
  ∃ w', outRun cfg w = Ret tt w' ∧ w_fs w' = w_fs w
        ∧ EStdlog "Could not write file." ∈ w_trace w'
        ∧ (PostExec cfg ≠ "" → EExec (PostExec cfg) ∈ w_trace w').
Proof.
  intros Hk Hf Hrej. rewrite outRun_unfold by done. cbv zeta. rewrite Hrej.
  unfold mbind at 1, M_bind at 1, bind at 1. unfold log_Print at 1.
  match goal with |- context [when _ _ ?w1] =>
    destruct (post_exec_fs cfg w1) as (w' & Hrun & Hfs & Htr & Hexec) end.
  exists w'. split; [exact Hrun|]. split; [by rewrite Hfs|]. split; [|done].
  apply Htr. simpl. rewrite !elem_of_app, !list_elem_of_singleton. auto.
Qed.

Lemma Count_le_length sep s : Count sep s ≤ Z.of_nat (String.length s).
Proof.
  induction s as [|c s IH]; simpl String.length; simpl Count; [lia|].
  destruct (Ascii.eqb c sep); lia.
Qed.

Lemma LengthCheck_bytes_short d m :
  Z.of_nat (String.length d) < m → LengthCheck_bytes d m = false.
Proof. intros H. unfold LengthCheck_bytes. apply Z.leb_gt. lia. Qed.

Lemma LengthCheck_lines_short d m :
  Z.of_nat (String.length d) < m → LengthCheck_lines d m = false.
Proof.
  intros H. unfold LengthCheck_lines. apply Z.leb_gt.
  pose proof (Count_le_length newline d). lia.
Qed.

(** C4. Provided the length check refuses content shorter than the minimum:
    when the content is shorter than the configured minimum or its checksum
    differs from the declared one, [outRun] returns (it does not end the
    process with an error), logs that it could not write, and leaves the
    filesystem as it was; whenever a run of [outRun] changes the filesystem,
    both checks have passed. *)
Theorem outRun_writes_only_valid (cfg : flags) (w : world) :
  (∀ d m, Z.of_nat (String.length d) < m → LengthCheck d m = false) →
  let KVData := Get (KeyDataPath (KeyOutLocation cfg) (PrefixLocation cfg))
                  (ConsulServer cfg) (Token cfg) in
  let Checksum := Get (KeyChecksumPath (KeyOutLocation cfg) (PrefixLocation cfg))
                    (ConsulServer cfg) (Token cfg) in
  (KeyOutLocation cfg ≠ "" → FiletoWrite cfg ≠ "" →
   Z.of_nat (String.length KVData) < MinFileLength cfg
   ∨ ComputeChecksum KVData ≠ Checksum →
   ∃ w', outRun cfg w = Ret tt w' ∧ w_fs w' = w_fs w
         ∧ EStdlog "Could not write file." ∈ w_trace w')
  ∧ (w_fs (final (outRun cfg w)) ≠ w_fs w →
     LengthCheck KVData (MinFileLength cfg) = true
     ∧ MinFileLength cfg ≤ Z.of_nat (String.length KVData)
     ∧ ComputeChecksum KVData = Checksum).
Proof.
  intros Hshort KVData Checksum.
  assert (Hchecks : LengthCheck KVData (MinFileLength cfg)
                    && ChecksumCompare KVData Checksum = true
                    ↔ LengthCheck KVData (MinFileLength cfg) = true
                      ∧ MinFileLength cfg ≤ Z.of_nat (String.length KVData)
                      ∧ ComputeChecksum KVData = Checksum).
  { unfold ChecksumCompare. rewrite andb_true_iff, String.eqb_eq. split.
    - intros [Hlen Hsum]. split; [done|]. split; [|done].
      destruct (Z.le_gt_cases (MinFileLength cfg) (Z.of_nat (String.length KVData)))
        as [|Hlt]; [done|].
      apply Hshort in Hlt. congruence.
    - intros (Hlen & _ & Hsum). done. }
  split.
  - intros Hk Hf Hbad.
    destruct (outRun_rejected cfg w Hk Hf) as (w' & Hrun & Hfs & Hlog & _).
    + apply not_true_is_false. intros Hb. apply Hchecks in Hb as (_ & Hlen & Hsum).
      destruct Hbad; [lia|done].
    + by exists w'.
  - intros Hchanged. apply Hchecks. apply not_false_is_true. intros Hrej.
    apply Hchanged.
    destruct (String.eqb_spec (KeyOutLocation cfg) "") as [Hk|Hk].
    { unfold outRun, mbind, M_bind, bind.
      destruct (checkOutFlags_missing cfg w (or_introl Hk)) as (w' & -> & Hfs). done. }
    destruct (String.eqb_spec (FiletoWrite cfg) "") as [Hf|Hf].
    { unfold outRun, mbind, M_bind, bind.
      destruct (checkOutFlags_missing cfg w (or_intror Hf)) as (w' & -> & Hfs). done. }
    destruct (outRun_rejected cfg w Hk Hf Hrej) as (w' & -> & Hfs & _). done.
Qed.

(** An accepted apply goes to [WriteFile] without looking at anything else:
    once the write has returned, so does [outRun], with the filesystem the
    write left. *)
Lemma outRun_commits cfg w w2 :
  KeyOutLocation cfg ≠ "" → FiletoWrite cfg ≠ "" →
  let KVData := Get (KeyDataPath (KeyOutLocation cfg) (PrefixLocation cfg))
                  (ConsulServer cfg) (Token cfg) in
  let Checksum := Get (KeyChecksumPath (KeyOutLocation cfg) (PrefixLocation cfg))
                    (ConsulServer cfg) (Token cfg) in
  LengthCheck KVData (MinFileLength cfg) && ChecksumCompare KVData Checksum = true →
  WriteFile KVData (FiletoWrite cfg) (FilePermissions cfg) (Owner cfg)
    (emit (EStdlog "out: checksumMatch='true'")
       (emit (EStdlog "out: longEnough='true'")
          (emit (EStdlog "out: Required cli flags present.")
             (emit (EStdlog "out: Checking cli flags.") w)))) = Ret tt w2 →
  ∃ w', outRun cfg w = Ret tt w' ∧ w_fs w' = w_fs w2.
Proof.
  intros Hk Hf KVData Checksum Hok Hwrite.
  rewrite outRun_unfold by done. cbv zeta. fold KVData Checksum. rewrite Hok.
  apply andb_true_iff in Hok as [-> ->].
  unfold mbind at 1, M_bind at 1, bind at 1.
  match goal with |- context [WriteFile ?a ?b ?c ?d ?w0] =>
    replace (WriteFile a b c d w0) with (@Ret unit tt w2) by (symmetry; exact Hwrite) end.
  destruct (post_exec_fs cfg w2) as (w' & Hrun & Hfs & _). by exists w'.
Qed.

(** [WriteFile] returns when the directories are there or can be made, no
    directory sits at the staging path or at the target path, and the
    operating system refuses none of the three calls. *)
Lemma WriteFile_succeeds data filepath perms owner w w1 :
  let tmp := filepath ++ "." ++ fileSuffix in
  CheckFullPath filepath w = Ret tt w1 →
  w_fs w1 !! tmp ≠ Some NDir → w_fs w1 !! filepath ≠ Some NDir →
  w_fails w (OpWrite tmp) = false →
  w_fails w (OpChown tmp (GetOwnerID owner) (GetGroupID owner)) = false →
  w_fails w (OpRename tmp filepath) = false →
  ∃ w', WriteFile data filepath perms owner w = Ret tt w'.
Proof.
  intros tmp Hcheck Htmp Htarget Hwrite Hchown Hrename.
  assert (Hfresh : tmp ≠ filepath) by (by apply staging_path_fresh).
  pose proof (CheckFullPath_spec filepath w) as Hspec. rewrite Hcheck in Hspec.
  destruct Hspec as ((_ & _ & _ & Hfails) & _ & _).
  unfold WriteFile, mbind, M_bind, bind. rewrite Hcheck. fold tmp. clearbody tmp.
  unfold ioutil_WriteFile. rewrite Hfails, Hwrite.
  set (f := match w_fs w1 !! tmp with
            | Some (NFile f0) => mkFile data (f_mode f0) (f_uid f0) (f_gid f0)
            | _ => mkFile data (create_mode perms (w_umask w1)) (w_uid w1) (w_gid w1)
            end).
  assert (Hstep : match w_fs w1 !! tmp with
                  | Some NDir => Ret true w1
                  | Some (NFile f0) =>
                      Ret false (set_fs (<[tmp:=NFile (mkFile data (f_mode f0) (f_uid f0)
                                                        (f_gid f0))]> (w_fs w1)) w1)
                  | None =>
                      Ret false (set_fs (<[tmp:=NFile (mkFile data
                                                        (create_mode perms (w_umask w1))
                                                        (w_uid w1) (w_gid w1))]> (w_fs w1)) w1)
                  end = Ret false (set_fs (<[tmp:=NFile f]> (w_fs w1)) w1)).
  { unfold f. destruct (w_fs w1 !! tmp) as [[|f0]|]; done. }
  rewrite Hstep. cbv beta iota delta [when ret].
  unfold ChownFile, os_Chown, mbind, M_bind, bind. simpl w_fails. simpl w_fs.
  rewrite Hfails, Hchown, lookup_insert_eq. cbv beta iota delta [ret].
  unfold os_Rename. simpl w_fails. simpl w_fs.
  rewrite Hfails, Hrename, lookup_insert_eq, !lookup_insert_ne by done.
  destruct (String.eqb_spec tmp filepath) as [|_]; [done|].
  destruct (w_fs w1 !! filepath) as [[|g]|]; [done|eexists; cbv beta iota delta [when ret Log]; reflexivity..].
Qed.

Lemma CheckFullFilename_relative file w :
  HasPrefix file "/" = false →
  CheckFullFilename file w
  = Exit 1 (emit (EPrint ("Please supply a complete file path." ++ nl)) w).
Proof. intros Hrel. unfold CheckFullFilename. by rewrite Hrel. Qed.

(** * Further properties of the commands *)

(** ** Lines *)

Lemma BlankLineStrip_run data w :
  BlankLineStrip data w
  = Ret (filter (λ l, l ≠ "") data)
      (emit (ELog "in: stripping_blank_lines='true'" "debug") w).
Proof.
  unfold BlankLineStrip, mbind, M_bind, bind, Log, ret. by rewrite strip_loop.
Qed.

Lemma filter_nonblank_fixed (l : list string) :
  Forall (λ x, x ≠ "") l → filter (λ x, x ≠ "") l = l.
Proof.
  induction 1 as [|x xs Hx _ IH]; [done|]. by rewrite filter_cons_True, IH.
Qed.

(** X1. [BlankLineStrip] returns the non-empty strings of its input, all of
    them and in their order, writes nothing but a log line, and returns its
    own output unchanged. *)
Theorem BlankLineStrip_keeps_nonblank (data : list string) (w : world) :
  ∃ out w',
    BlankLineStrip data w = Ret out w' ∧ w_fs w' = w_fs w
    ∧ out = filter (λ l, l ≠ "") data
    ∧ (∀ l, l ∈ out ↔ l ∈ data ∧ l ≠ "")
    ∧ out `sublist_of` data
    ∧ (length out ≤ length data)%nat
    ∧ (∀ w2, ∃ w3, BlankLineStrip out w2 = Ret out w3).
Proof.
  exists (filter (λ l, l ≠ "") data). eexists.
  split; [apply BlankLineStrip_run|]. split; [done|]. split; [done|].
  split; [intros l; rewrite list_elem_of_filter; split; intros [? ?]; done|].
  split; [apply sublist_filter|].
  split; [apply length_filter|].
  intros w2. eexists. rewrite BlankLineStrip_run.
  rewrite (filter_nonblank_fixed (filter (λ l, l ≠ "") data)); [reflexivity|].
  apply Forall_forall. intros x Hx. by apply list_elem_of_filter in Hx as [? _].
Qed.

Lemma Join_nonblank_empty (ls : list string) :
  Forall (λ l, l ≠ "") ls → Join nl ls = "" → ls = [].
Proof.
  intros Hne Hj. destruct ls as [|a ls]; [done|]. exfalso.
  inversion Hne as [|? ? Ha _]; subst.
  destruct ls as [|b ls]; simpl in Hj; [done|]. by destruct a.
Qed.

Lemma Join_nl_inj (l1 l2 : list string) :
  Forall (λ l, l ≠ "" ∧ has_byte newline l = false) l1 →
  Forall (λ l, l ≠ "" ∧ has_byte newline l = false) l2 →
  Join nl l1 = Join nl l2 → l1 = l2.
Proof.
  intros H1 H2 Hj.
  assert (Hne : ∀ l, Forall (λ x, x ≠ "" ∧ has_byte newline x = false) l →
                     Forall (λ x, x ≠ "") l)
    by (intros l Hl; eapply Forall_impl; [exact Hl|]; by intros ? [? ?]).
  assert (Hfree : ∀ l, Forall (λ x, x ≠ "" ∧ has_byte newline x = false) l →
                       Forall (λ x, has_byte newline x = false) l)
    by (intros l Hl; eapply Forall_impl; [exact Hl|]; by intros ? [? ?]).
  destruct l1 as [|a l1], l2 as [|b l2]; [done| | |].
  - symmetry in Hj. by apply Join_nonblank_empty in Hj; [|apply Hne].
  - by apply Join_nonblank_empty in Hj; [|apply Hne].
  - apply (f_equal (Split newline)) in Hj.
    unfold nl in Hj. by rewrite !Split_Join in Hj by (done || by apply Hfree).
Qed.

Lemma lines_clean s :
  Forall (λ l, l ≠ "" ∧ has_byte newline l = false)
    (sort_Strings (filter (λ l, l ≠ "") (Split newline s))).
Proof.
  rewrite sort_Strings_perm. apply Forall_forall. intros x Hx.
  apply list_elem_of_filter in Hx as [Hne Hx]. split; [done|].
  pose proof (Split_no_sep newline s) as Hall. rewrite Forall_forall in Hall.
  by apply Hall.
Qed.

(** X2. [SortFile] is a canonical form: two inputs give the same output
    exactly when their non-empty lines are the same up to order (and number
    of occurrences). *)
Theorem SortFile_canonical (s1 s2 : string) (w1 w2 : world) :
  ∃ out1 out2 w1' w2',
    SortFile s1 w1 = Ret out1 w1' ∧ SortFile s2 w2 = Ret out2 w2'
    ∧ (out1 = out2
       ↔ filter (λ l, l ≠ "") (Split newline s1)
         ≡ₚ filter (λ l, l ≠ "") (Split newline s2)).
Proof.
  destruct (SortFile_run s1 w1) as (w1' & Hrun1 & _).
  destruct (SortFile_run s2 w2) as (w2' & Hrun2 & _).
  eexists _, _, w1', w2'. split; [exact Hrun1|]. split; [exact Hrun2|]. split.
  - intros Hj. apply Join_nl_inj in Hj; [|apply lines_clean..].
    by rewrite <- (sort_Strings_perm (filter _ (Split newline s1))), Hj,
      sort_Strings_perm.
  - intros Hperm. f_equal.
    apply (Sorted_unique String.le); [apply sort_Strings_sorted..|].
    by rewrite !sort_Strings_perm.
Qed.

Lemma Split_snoc_sep sep s : Split sep (s ++ String sep "") = (Split sep s ++ [""])%list.
Proof.
  induction s as [|c s IH]; simpl.
  - by rewrite Ascii.eqb_refl.
  - destruct (Ascii.eqb c sep); [by rewrite IH|]. rewrite IH.
    pose proof (Split_not_nil sep s). by destruct (Split sep s).
Qed.

(** X3. Blank lines at either end do not count: [SortFile] of an input with
    a newline added in front or at the end returns what it returns for the
    input itself; the empty input and a lone newline both give the empty
    string. *)
Theorem SortFile_ignores_outer_newlines (s : string) (w : world) :
  ∃ out w1 w2 w3,
    SortFile s w = Ret out w1
    ∧ SortFile (s ++ nl) w = Ret out w2
    ∧ SortFile (nl ++ s) w = Ret out w3
    ∧ (s = "" ∨ s = nl → out = "").
Proof.
  destruct (SortFile_run s w) as (w1 & Hrun1 & _).
  destruct (SortFile_run (s ++ nl) w) as (w2 & Hrun2 & _).
  destruct (SortFile_run (nl ++ s) w) as (w3 & Hrun3 & _).
  eexists _, w1, w2, w3. split; [exact Hrun1|].
  split; [rewrite Hrun2; do 3 f_equal|split; [rewrite Hrun3; do 3 f_equal|]].
  - unfold nl. rewrite Split_snoc_sep, filter_app.
    rewrite (filter_cons_False _ "") by (intros Hne; by apply Hne).
    by rewrite filter_nil, app_nil_r.
  - intros [Hs|Hs]; rewrite Hs; reflexivity.
Qed.

(** ** Directories *)

Lemma mkdir_chain_keeps_dir ps w q :
  w_fs w !! q = Some NDir → w_fs (mkdir_chain ps w).2 !! q = Some NDir.
Proof.
  intros Hq. destruct (mkdir_chain_spec ps w) as (_ & Hd & _).
  destruct (Hd q) as [->|[Hn _]]; congruence.
Qed.

Lemma mkdir_chain_ok ps w p :
  (mkdir_chain ps w).1 = false → p ∈ ps →
  w_fs (mkdir_chain ps w).2 !! p = Some NDir.
Proof.
  revert w. induction ps as [|a ps IH]; intros w Hok Hin; [by apply elem_of_nil in Hin|].
  simpl in *. destruct (w_fs w !! a) as [[|f]|] eqn:Ha; simpl in *; [|done|].
  - apply elem_of_cons in Hin as [->|Hin]; [by apply mkdir_chain_keeps_dir|by apply IH].
  - destruct (w_fails w (OpMkdir a)); [done|].
    apply elem_of_cons in Hin as [->|Hin]; [|by apply IH].
    apply mkdir_chain_keeps_dir. simpl. apply lookup_insert_eq.
Qed.

Lemma mkdir_chain_blocked ps w p f :
  p ∈ ps → w_fs w !! p = Some (NFile f) → (mkdir_chain ps w).1 = true.
Proof.
  revert w. induction ps as [|a ps IH]; intros w Hin Hp; [by apply elem_of_nil in Hin|].
  simpl. apply elem_of_cons in Hin as [->|Hin]; [by rewrite Hp|].
  destruct (w_fs w !! a) as [[|g]|] eqn:Ha; simpl; [by apply IH|done|].
  destruct (w_fails w (OpMkdir a)); [done|]. apply IH; [done|]. simpl.
  rewrite lookup_insert_ne; [done|]. intros ->. congruence.
Qed.

Lemma mkdir_chain_present ps w :
  (∀ p, p ∈ ps → w_fs w !! p = Some NDir) → mkdir_chain ps w = (false, w).
Proof.
  induction ps as [|a ps IH]; intros Hall; [done|]. simpl.
  rewrite (Hall a) by apply list_elem_of_here. apply IH.
  intros p Hp. apply Hall. by apply list_elem_of_further.
Qed.

Lemma append_assoc (a b c : string) : (a ++ b) ++ c = a ++ b ++ c.
Proof.
  induction a as [|x a IH]; [done|].
  change (String x ((a ++ b) ++ c) = String x (a ++ b ++ c)). by rewrite IH.
Qed.

Lemma append_empty_r (a : string) : a ++ "" = a.
Proof.
  induction a as [|x a IH]; [done|]. change (String x (a ++ "") = String x a).
  by rewrite IH.
Qed.

Lemma dir_chain_self pre rest :
  pre ++ rest ≠ "" → pre ++ rest ∈ dir_chain pre rest.
Proof.
  revert pre. induction rest as [|c rest IH]; intros pre Hne; simpl.
  - rewrite append_empty_r in *.
    destruct (String.eqb_spec pre "") as [|_]; [done|]. apply list_elem_of_here.
  - assert (Happ : pre ++ String c rest = (pre ++ String c "") ++ rest)
      by (by rewrite append_assoc).
    destruct (Ascii.eqb_spec c slash) as [->|_].
    + apply elem_of_app. right. change (pre ++ "/") with (pre ++ String slash "").
      rewrite Happ. apply IH. rewrite <- Happ. done.
    + rewrite Happ. apply IH. rewrite <- Happ. done.
Qed.

Lemma Clean_not_empty p : Clean p ≠ "".
Proof.
  unfold Clean.
  match goal with |- context [String.eqb ?o ""] => destruct (String.eqb_spec o "") end;
    done.
Qed.

Lemma CheckFullPath_chain file w :
  CheckFullPath file w
  = let r := mkdir_chain (List.filter (λ d, negb (implicit_dir d))
                            (dir_chain "" (Dir file))) w in
    if r.1
    then Exit 1 (emit (EStatsd (Dir file) "create_directory")
                   (emit (EPrint ("Panic: Could not create directories: '" ++ Dir file
                                  ++ "'" ++ nl))
                      (emit (ELog ("function='CheckFullPath' panic='true' file='"
                                   ++ Dir file ++ "'") "info") r.2)))
    else Ret tt r.2.
Proof.
  unfold CheckFullPath, os_MkdirAll, mbind, M_bind, bind. cbv zeta.
  by destruct (mkdir_chain _ w) as [[|] w1].
Qed.

(** X4. [CheckFullPath] makes directories and nothing else.  When it returns,
    the directory of the file is there; regular files are as they were in
    either outcome; and a regular file in the place of one of the directories
    is not overwritten: the run ends with exit code 1 and the file stays. *)
Theorem CheckFullPath_makes_directories (file : string) (w : world) :
  match CheckFullPath file w with
  | Ret _ w' =>
      (implicit_dir (Dir file) = false → w_fs w' !! Dir file = Some NDir)
      ∧ only_dirs_added w w' ∧ w_trace w' = w_trace w
  | Exit code w' => code = 1 ∧ only_dirs_added w w'
  end
  ∧ (∀ q, file_at (final (CheckFullPath file w)) q = file_at w q)
  ∧ (∀ d f, d ∈ dir_chain "" (Dir file) → implicit_dir d = false →
            w_fs w !! d = Some (NFile f) →
            ∃ w', CheckFullPath file w = Exit 1 w' ∧ w_fs w' !! d = Some (NFile f)).
Proof.
  pose proof (CheckFullPath_spec file w) as Hspec.
  rewrite CheckFullPath_chain in *. cbv zeta in *.
  set (ps := List.filter (λ d, negb (implicit_dir d)) (dir_chain "" (Dir file))) in *.
  split; [|split].
  - destruct (mkdir_chain ps w).1 eqn:Herr.
    + destruct Hspec as (_ & _ & Hd). done.
    + destruct Hspec as (_ & Hd & Ht). split; [|done].
      intros Himp. apply mkdir_chain_ok; [done|]. unfold ps.
      apply list_elem_of_In, filter_In. split; [|by rewrite Himp].
      apply list_elem_of_In. apply (dir_chain_self "" (Dir file)). apply Clean_not_empty.
  - intros q. destruct (mkdir_chain ps w).1.
    + destruct Hspec as (_ & _ & Hd). by apply only_dirs_added_file_at.
    + destruct Hspec as (_ & Hd & _). by apply only_dirs_added_file_at.
  - intros d f Hd Himp Hfile.
    assert (Hin : d ∈ ps).
    { unfold ps. apply list_elem_of_In, filter_In. split; [by apply list_elem_of_In|].
      by rewrite Himp. }
    rewrite (mkdir_chain_blocked ps w d f Hin Hfile). eexists. split; [reflexivity|].
    simpl. destruct (mkdir_chain_spec ps w) as (_ & Hadd & _).
    destruct (Hadd d) as [->|[Hn _]]; congruence.
Qed.

(** ** Ownership *)

(** X5. [ChownFile] changes the owner and the group of the one file and
    nothing else: content and permission bits of that file and every other
    path stay as they are.  It returns only after a successful change, with
    the flag set and the two resolved ids; when the change fails (nothing at
    the path, or the system refuses) the run ends with exit code 1 and the
    filesystem as it was. *)
Theorem ChownFile_changes_owner_only (filepath owner : string) (w : world) :
  match ChownFile filepath owner w with
  | Ret (ok, oid, gid) w' =>
      ok = true ∧ oid = GetOwnerID owner ∧ gid = GetGroupID owner
      ∧ (∀ q, q ≠ filepath → w_fs w' !! q = w_fs w !! q)
      ∧ match w_fs w !! filepath with
        | Some (NFile f) =>
            w_fs w' !! filepath
            = Some (NFile (mkFile (f_data f) (f_mode f)
                             (if oid =? -1 then f_uid f else oid)
                             (if gid =? -1 then f_gid f else gid)))
        | Some NDir => w_fs w' = w_fs w
        | None => False
        end
  | Exit code w' =>
      code = 1 ∧ w_fs w' = w_fs w
      ∧ (w_fs w !! filepath = None
         ∨ w_fails w (OpChown filepath (GetOwnerID owner) (GetGroupID owner)) = true)
  end.
Proof.
  unfold ChownFile, os_Chown, mbind, M_bind, bind.
  destruct (w_fails w (OpChown filepath (GetOwnerID owner) (GetGroupID owner))) eqn:Hf.
  { simpl. auto. }
  destruct (w_fs w !! filepath) as [[|f]|] eqn:Hp; simpl.
  - by repeat split.
  - repeat split; try done.
    + intros q Hq. by rewrite lookup_insert_ne.
    + by rewrite lookup_insert_eq.
  - auto.
Qed.

(** ** Writing *)

(** X6. [WriteFile] touches two paths only: whatever the outcome, every
    regular file other than the target and its staging file is as it was, and
    no regular file appears anywhere else. *)
Theorem WriteFile_touches_two_paths (data filepath : string) (perms : Z) (owner : string)
    (w : world) (q : string) :
  q ≠ filepath → q ≠ filepath ++ "." ++ fileSuffix →
  file_at (final (WriteFile data filepath perms owner w)) q = file_at w q.
Proof.
  intros Hq1 Hq2.
  pose proof (WriteFile_spec data filepath perms owner w) as Hspec. cbv zeta in Hspec.
  destruct (WriteFile data filepath perms owner w) as [[] w'|code w'] eqn:Hrun; simpl.
  - destruct (WriteFile_Ret _ _ _ _ _ _ Hrun) as (_ & _ & _ & _ & _ & Hframe).
    by apply Hframe.
  - destruct Hspec as (_ & _ & Hframe). by apply Hframe.
Qed.

Lemma ioutil_WriteFile_ok p data perm w w' :
  ioutil_WriteFile p data perm w = Ret false w' →
  w_fails w (OpWrite p) = false ∧ w_fs w !! p ≠ Some NDir.
Proof.
  unfold ioutil_WriteFile. destruct (w_fails w (OpWrite p)); [done|].
  by destruct (w_fs w !! p) as [[|f]|].
Qed.

Lemma ChownFile_ok p owner w r w' :
  ChownFile p owner w = Ret r w' →
  w_fails w (OpChown p (GetOwnerID owner) (GetGroupID owner)) = false.
Proof.
  unfold ChownFile, os_Chown, mbind, M_bind, bind.
  by destruct (w_fails w (OpChown p (GetOwnerID owner) (GetGroupID owner))).
Qed.

Lemma os_Rename_ok old new w w' :
  os_Rename old new w = Ret false w' →
  w_fails w (OpRename old new) = false ∧ w_fs w !! new ≠ Some NDir.
Proof.
  unfold os_Rename. destruct (w_fails w (OpRename old new)); [done|].
  destruct (w_fs w !! old) as [[|f]|]; [done| |done].
  by destruct (w_fs w !! new) as [[|g]|].
Qed.

Lemma CheckFullPath_Ret file w w1 :
  CheckFullPath file w = Ret tt w1 →
  ∀ d, d ∈ List.filter (λ d, negb (implicit_dir d)) (dir_chain "" (Dir file)) →
       w_fs w1 !! d = Some NDir.
Proof.
  rewrite CheckFullPath_chain. cbv zeta.
  destruct (mkdir_chain _ w).1 eqn:Herr; [done|]. intros [= <-] d Hd.
  by apply mkdir_chain_ok.
Qed.

Lemma CheckFullPath_present file w :
  (∀ d, d ∈ List.filter (λ d, negb (implicit_dir d)) (dir_chain "" (Dir file)) →
        w_fs w !! d = Some NDir) →
  CheckFullPath file w = Ret tt w.
Proof.
  intros Hall. rewrite CheckFullPath_chain. cbv zeta.
  by rewrite mkdir_chain_present.
Qed.

(** X7. Writing again changes nothing.  Take a [WriteFile] that found no
    staging file and returned, and any later run of [WriteFile] with the same
    content, mode and owner that starts from the filesystem the first run
    left, under the same umask and ids; the system may refuse other calls
    than it did the first time.  However the later run ends, the target file
    is as the first run left it; when it returns, the whole filesystem is; and
    it returns when the system refuses none of its write, change of owner and
    rename. *)
Theorem WriteFile_twice (data filepath : string) (perms : Z) (owner : string)
    (w w' v : world) :
  let tmp := filepath ++ "." ++ fileSuffix in
  file_at w tmp = None →
  WriteFile data filepath perms owner w = Ret tt w' →
  w_fs v = w_fs w' → w_umask v = w_umask w' → w_uid v = w_uid w' → w_gid v = w_gid w' →
  file_at (final (WriteFile data filepath perms owner v)) filepath = file_at w' filepath
  ∧ (∀ v', WriteFile data filepath perms owner v = Ret tt v' → w_fs v' = w_fs w')
  ∧ (w_fails v (OpWrite tmp) = false →
     w_fails v (OpChown tmp (GetOwnerID owner) (GetGroupID owner)) = false →
     w_fails v (OpRename tmp filepath) = false →
     ∃ v', WriteFile data filepath perms owner v = Ret tt v').
Proof.
  intros tmp Hstale Hrun Hvfs Hvu Hvi Hvg.
  assert (Hfresh : tmp ≠ filepath) by (by apply staging_path_fresh).
  pose proof (WriteFile_spec data filepath perms owner w) as Hspec.
  cbv zeta in Hspec. rewrite Hrun in Hspec. fold tmp in Hspec.
  destruct Hspec as (w1 & w2 & w3 & Hc & Hw & Hch & Hr & H2 & H3 & H' & Hd & He).
  destruct (ioutil_WriteFile_ok _ _ _ _ _ Hw) as (_ & Hnd1).
  destruct (os_Rename_ok _ _ _ _ Hr) as (_ & Hnd3).
  rewrite H3, lookup_insert_ne in Hnd3 by done.
  destruct He as (Hu & Hi & Hg & Hf).
  assert (Hdirs : ∀ d, d ∈ List.filter (λ d, negb (implicit_dir d))
                             (dir_chain "" (Dir filepath)) →
                       w_fs v !! d = Some NDir).
  { intros d Hdin. pose proof (CheckFullPath_Ret _ _ _ Hc d Hdin) as Hdir.
    rewrite Hvfs, H'. rewrite lookup_insert_ne by (intros <-; congruence).
    rewrite lookup_delete_ne by (intros <-; congruence). done. }
  pose proof (CheckFullPath_present filepath v Hdirs) as Hcv.
  assert (Htmpv : w_fs v !! tmp = None)
    by (rewrite Hvfs, H', lookup_insert_ne, lookup_delete_eq; done).
  assert (Hsame : staged_file v tmp data perms = staged_file w tmp data perms).
  { unfold staged_file, file_at. rewrite Htmpv. unfold file_at in Hstale.
    destruct (w_fs w !! tmp) as [[|f0]|]; [|done|]; by rewrite Hvu, Hvi, Hvg, Hu, Hi, Hg. }
  pose proof (WriteFile_spec data filepath perms owner v) as Hspecv.
  cbv zeta in Hspecv. fold tmp in Hspecv.
  assert (Hret : ∀ v', WriteFile data filepath perms owner v = Ret tt v' →
                       w_fs v' = w_fs w').
  { intros v' Hrunv. rewrite Hrunv in Hspecv.
    destruct Hspecv as (v1 & v2 & v3 & Hvc & _ & _ & _ & _ & _ & Hv' & _ & _).
    rewrite Hcv in Hvc. injection Hvc as <-.
    rewrite Hv', Hsame, Hvfs, H'.
    rewrite delete_insert_ne by done. rewrite delete_delete_eq.
    by rewrite insert_insert_eq. }
  split; [|split; [exact Hret|]].
  - destruct (WriteFile data filepath perms owner v) as [[] v'|code v'] eqn:Hrunv;
      cbv beta iota delta [final].
    + unfold file_at. by rewrite (Hret v' eq_refl).
    + destruct Hspecv as (_ & _ & Hq). rewrite Hq by done. unfold file_at.
      by rewrite Hvfs.
  - intros Hokw Hokc Hokr.
    apply (WriteFile_succeeds data filepath perms owner v v); fold tmp; try done.
    + by rewrite Htmpv.
    + rewrite Hvfs, H', lookup_insert_eq. done.
Qed.

(** X8. A commit that cannot be made leaves the target alone: when the rename
    is refused or a directory sits at the target path, [WriteFile] ends the
    run with exit code 1, the target is as it was, and the staging file stays
    behind with the whole content. *)
Theorem WriteFile_failed_rename (data filepath : string) (perms : Z) (owner : string)
    (w w1 : world) :
  let tmp := filepath ++ "." ++ fileSuffix in
  CheckFullPath filepath w = Ret tt w1 →
  w_fs w1 !! tmp ≠ Some NDir →
  w_fails w (OpWrite tmp) = false →
  w_fails w (OpChown tmp (GetOwnerID owner) (GetGroupID owner)) = false →
  w_fails w (OpRename tmp filepath) = true ∨ w_fs w1 !! filepath = Some NDir →
  ∃ w' f,
    WriteFile data filepath perms owner w = Exit 1 w'
    ∧ w_fs w' !! filepath = w_fs w1 !! filepath
    ∧ file_at w' filepath = file_at w filepath
    ∧ file_at w' tmp = Some f ∧ f_data f = data
    ∧ EStatsd filepath "rename_file" ∈ w_trace w'.
Proof.
  intros tmp Hcheck Htmp Hwrite Hchown Hrename.
  assert (Hfresh : tmp ≠ filepath) by (by apply staging_path_fresh).
  pose proof (CheckFullPath_spec filepath w) as Hspec. rewrite Hcheck in Hspec.
  destruct Hspec as ((_ & _ & _ & Hfails) & Hadd & _).
  unfold WriteFile, mbind, M_bind, bind. rewrite Hcheck. fold tmp. clearbody tmp.
  destruct (ioutil_WriteFile_cases tmp data perms w1) as [Hw|[_ Hw]].
  { exfalso. unfold ioutil_WriteFile in Hw. rewrite Hfails, Hwrite in Hw.
    destruct (w_fs w1 !! tmp) as [[|f0]|]; done. }
  rewrite Hw. cbv beta iota delta [when ret].
  set (s := staged_file w1 tmp data perms) in *.
  set (w2 := set_fs (<[tmp:=NFile s]> (w_fs w1)) w1).
  assert (H2 : w_fs w2 !! tmp = Some (NFile s)) by apply lookup_insert_eq.
  destruct (ChownFile_cases tmp owner w2 _ H2) as [(w3 & Hc & _)|Hc].
  { exfalso. unfold ChownFile, os_Chown, mbind, M_bind, bind in Hc.
    change (w_fails w2) with (w_fails w1) in Hc. rewrite Hfails, Hchown, H2 in Hc. done. }
  rewrite Hc.
  set (c := chowned (GetOwnerID owner) (GetGroupID owner) s) in *.
  set (w3 := set_fs (<[tmp:=NFile c]> (w_fs w2)) w2).
  assert (Hren : os_Rename tmp filepath w3 = Ret true w3).
  { unfold os_Rename. change (w_fails w3) with (w_fails w1). rewrite Hfails.
    destruct Hrename as [->|Hdir]; [done|].
    destruct (w_fails w (OpRename tmp filepath)); [done|].
    change (w_fs w3) with (<[tmp:=NFile c]> (<[tmp:=NFile s]> (w_fs w1))).
    rewrite lookup_insert_eq, !lookup_insert_ne, Hdir by done. done. }
  rewrite Hren. cbv beta iota delta [Log Printf StatsdPanic].
  eexists. exists c. split; [reflexivity|]. simpl.
  split; [by rewrite !lookup_insert_ne|].
  split; [unfold file_at; simpl; rewrite !lookup_insert_ne by done;
          by apply only_dirs_added_file_at|].
  split; [unfold file_at; simpl; by rewrite lookup_insert_eq|].
  split; [unfold c, chowned, s, staged_file; simpl; by case_match|].
  rewrite !elem_of_app, !list_elem_of_singleton. auto.
Qed.

(** ** The change gate, all cases *)

(** X9. [CheckFiletoWrite] lets the run go on exactly when nothing is at the
    path or a regular file is there whose data, as the read returned it, has
    another checksum than the declared one.  The data is the whole content
    when the read succeeds; when the read fails, the error is logged and the
    data is what the failed read delivered, a prefix of the content, and
    the checksum of that is compared all the same.  On a directory the run
    ends with exit code 1, on an equal checksum with exit code 0.  Whatever
    it finds, it writes nothing. *)
Theorem CheckFiletoWrite_decides (filename checksum : string) (w : world) :
  w_fs (final (CheckFiletoWrite filename checksum w)) = w_fs w
  ∧ match w_fs w !! filename with
      | None =>
          CheckFiletoWrite filename checksum w
          = Ret tt (emit (ELog ("there is NO file at " ++ filename) "debug") w)
      | Some NDir => ∃ w', CheckFiletoWrite filename checksum w = Exit 1 w'
      | Some (NFile f) =>
          ∃ seen err,
            ioutil_ReadFile filename w = Ret (seen, err) w
            ∧ (w_fails w (OpRead filename) = false → seen = f_data f ∧ err = false)
            ∧ (w_fails w (OpRead filename) = true →
               err = true
               ∧ seen = read_upto (λ off, w_fails w (OpReadAt filename off)) 0 (f_data f)
               ∧ ∃ rest, f_data f = seen ++ rest)
            ∧ (ComputeChecksum seen = checksum →
               ∃ w', CheckFiletoWrite filename checksum w = Exit 0 w')
            ∧ (ComputeChecksum seen ≠ checksum →
               ∃ w', CheckFiletoWrite filename checksum w = Ret tt w')
            ∧ (err = true →
               ELog ("CheckFiletoWrite(): Error reading file: '" ++ filename ++ "'") "info"
               ∈ w_trace (final (CheckFiletoWrite filename checksum w)))
      end.
Proof.
  split; [apply CheckFiletoWrite_reads_only|].
  destruct (w_fs w !! filename) as [[|f]|] eqn:Hf.
  - unfold CheckFiletoWrite, os_Open, File_Stat, mbind, M_bind, bind.
    repeat first [rewrite Hf | progress cbv beta iota delta [IsDir when ret Log os_Exit]].
    eexists. reflexivity.
  - destruct (ioutil_ReadFile_world filename w) as (seen & err & Hread).
    exists seen, err. split; [done|].
    pose proof (ioutil_ReadFile_cases filename w) as Hcases. rewrite Hf in Hcases.
    pose proof (CheckFiletoWrite_file _ checksum _ _ _ _ Hf Hread) as Hrun.
    cbv zeta in Hrun.
    split; [intros Hr; rewrite Hr in Hcases; split; congruence|].
    split.
    { intros Hr. rewrite Hr in Hcases.
      assert (Hseen : seen = read_upto (λ off, w_fails w (OpReadAt filename off)) 0
                               (f_data f)) by congruence.
      split; [congruence|]. split; [done|]. rewrite Hseen. apply read_upto_prefix. }
    split; [intros Hsum; rewrite Hsum, String.eqb_refl in Hrun; by eexists|].
    split.
    { intros Hne. apply String.eqb_neq in Hne. rewrite Hne in Hrun. by eexists. }
    intros ->. rewrite Hrun.
    destruct (String.eqb (ComputeChecksum seen) checksum); cbv beta iota delta [final];
      simpl w_trace; rewrite ?elem_of_app, !list_elem_of_singleton; auto.
  - unfold CheckFiletoWrite, os_Open, File_Stat, mbind, M_bind, bind.
    repeat first [rewrite Hf | progress cbv beta iota delta [IsDir when ret Log os_Exit]].
    reflexivity.
Qed.

(** ** Removing *)

(** X10. [RemoveFile] removes at most the one path: every other path is as it
    was, whatever the outcome.  It never removes a directory (the run ends
    with exit code 1 and the directory stays) and returns without a change
    when nothing is there or the system refuses the removal. *)
Theorem RemoveFile_removes_one_path (filename : string) (w : world) :
  (∀ q, q ≠ filename →
        w_fs (final (RemoveFile filename w)) !! q = w_fs w !! q)
  ∧ match w_fs w !! filename with
    | Some NDir =>
        ∃ w', RemoveFile filename w = Exit 1 w' ∧ w_fs w' !! filename = Some NDir
    | Some (NFile f) =>
        ∃ w', RemoveFile filename w = Ret tt w'
              ∧ w_fs w' !! filename
                = (if w_fails w (OpRemove filename) then Some (NFile f) else None)
    | None => ∃ w', RemoveFile filename w = Ret tt w' ∧ w_fs w' = w_fs w
    end.
Proof.
  pose proof (RemoveFile_cases filename w) as Hcases.
  destruct (w_fs w !! filename) as [[|f]|] eqn:Hf.
  - rewrite Hcases. split; [done|]. eexists. split; [reflexivity|done].
  - destruct (w_fails w (OpRemove filename)); rewrite Hcases; simpl.
    + split; [done|]. eexists. split; [reflexivity|done].
    + split; [intros q Hq; by rewrite lookup_delete_ne|].
      eexists. split; [reflexivity|]. simpl. apply lookup_delete_eq.
  - rewrite Hcases. split; [done|]. eexists. split; [reflexivity|done].
Qed.

(** ** Locking and unlocking *)

Lemma locked_not_target (file : string) :
  file ≠ LockFilePath file ∧ file ≠ LockFilePath file ++ "." ++ fileSuffix.
Proof.
  split; intros Heq; apply (f_equal String.length) in Heq; unfold LockFilePath in Heq;
    rewrite ?length_append in Heq; simpl in Heq; lia.
Qed.

(** X11. Neither locking nor unlocking touches the file that is locked:
    whatever the outcome of [LockFileWrite] or [LockFileRemove], the file
    itself is as it was. *)
Theorem Lock_Unlock_leave_target (cfg : flags) (file : string) (w : world) :
  file_at (final (LockFileWrite cfg file w)) file = file_at w file
  ∧ w_fs (final (LockFileRemove file w)) !! file = w_fs w !! file.
Proof.
  destruct (locked_not_target file) as (Hne1 & Hne2). split.
  - destruct (w_fs w !! LockFilePath file) as [n|] eqn:Hn.
    + rewrite LockFileWrite_present by eauto. done.
    + rewrite LockFileWrite_absent by done.
      pose proof (WriteFile_spec (lockedFileText cfg) (LockFilePath file)
                    (FilePermissions cfg) (Owner cfg)
                    (emit (ELog ("file='locked' file='" ++ LockFilePath file
                                 ++ "' does_not_exist='true'") "debug") w)) as Hspec.
      cbv zeta in Hspec.
      destruct (WriteFile _ _ _ _ _) as [[] w'|code w'] eqn:Hrun; simpl.
      * destruct (WriteFile_Ret _ _ _ _ _ _ Hrun) as (_ & _ & _ & _ & _ & Hframe).
        by rewrite Hframe.
      * destruct Hspec as (_ & _ & Hframe). by rewrite Hframe.
  - unfold LockFileRemove.
    pose proof (RemoveFile_cases (LockFilePath file) w) as Hcases.
    destruct (w_fs w !! LockFilePath file) as [[|f]|]; [by rewrite Hcases| |by rewrite Hcases].
    destruct (w_fails w (OpRemove (LockFilePath file))); rewrite Hcases; [done|].
    simpl. by rewrite lookup_delete_ne.
Qed.

(** X12. Unlocking undoes locking: starting without a marker, a lock that
    returns followed by an unlock that the system does not refuse leaves every
    regular file as it was before the lock (a staging file left over at the
    marker's staging path apart, which the lock uses up). *)
Theorem Lock_then_Unlock (cfg : flags) (file : string) (w w1 : world) :
  w_fs w !! LockFilePath file = None →
  LockFileWrite cfg file w = Ret tt w1 →
  w_fails w (OpRemove (LockFilePath file)) = false →
  ∃ w2, LockFileRemove file w1 = Ret tt w2
        ∧ w_fs w2 !! LockFilePath file = None
        ∧ ∀ q, q ≠ LockFilePath file ++ "." ++ fileSuffix →
               file_at w2 q = file_at w q.
Proof.
  intros Hn Hlock Hok. rewrite LockFileWrite_absent in Hlock by done.
  destruct (WriteFile_Ret _ _ _ _ _ _ Hlock) as (f & Hf & _ & _ & He & Hframe).
  unfold LockFileRemove.
  pose proof (RemoveFile_cases (LockFilePath file) w1) as Hcases.
  rewrite Hf in Hcases. destruct He as (_ & _ & _ & Hfails). simpl in Hfails.
  rewrite Hfails, Hok in Hcases. eexists. split; [exact Hcases|]. simpl.
  split; [apply lookup_delete_eq|]. intros q Hq. unfold file_at at 1. simpl.
  destruct (decide (q = LockFilePath file)) as [->|Hq'].
  - rewrite lookup_delete_eq. unfold file_at. by rewrite Hn.
  - rewrite lookup_delete_ne by done. by apply Hframe.
Qed.

(** ** Checks on the command line *)

Lemma HasPrefix_slash (file : string) :
  HasPrefix file "/" = true ↔ ∃ rest, file = String slash rest.
Proof.
  unfold HasPrefix. destruct file as [|c rest].
  - split; [done|by intros [? ?]].
  - change (String.prefix "/" (String c rest))
      with (if ascii_dec "/" c then String.prefix "" rest else false).
    destruct (ascii_dec "/" c) as [<-|Hne].
    + split; [intros _; by exists rest|intros _; by destruct rest].
    + split; [done|]. intros [r [= Hc _]]. by destruct Hne.
Qed.

(** [CheckFullFilename] returns, leaving everything as it is, exactly
    for the paths whose first byte is a slash; for every other path, the
    empty one included, it prints its message and ends the run with exit code
    1 without touching the filesystem. *)
Theorem CheckFullFilename_accepts_rooted (file : string) (w : world) :
  ((∃ rest, file = String slash rest) → CheckFullFilename file w = Ret tt w)
  ∧ ((∀ rest, file ≠ String slash rest) →
     CheckFullFilename file w
     = Exit 1 (emit (EPrint ("Please supply a complete file path." ++ nl)) w))
  ∧ CheckFullFilename "" w
    = Exit 1 (emit (EPrint ("Please supply a complete file path." ++ nl)) w)
  ∧ w_fs (final (CheckFullFilename file w)) = w_fs w.
Proof.
  pose proof (HasPrefix_slash file) as Hp.
  split; [|split; [|split]].
  - intros Hr. apply Hp in Hr. unfold CheckFullFilename. by rewrite Hr.
  - intros Hn. apply CheckFullFilename_relative. apply not_true_is_false.
    intros [rest ->]%Hp. by apply (Hn rest).
  - reflexivity.
  - unfold CheckFullFilename. by destruct (HasPrefix file "/").
Qed.

(** X13. With the key or the target path empty, [outRun] stops at the flag
    check: the run ends with exit code 1 after one log line and one message,
    with nothing written and no command run; the missing key is reported
    first. *)
Theorem outRun_missing_flags (cfg : flags) (w : world) :
  KeyOutLocation cfg = "" ∨ FiletoWrite cfg = "" →
  ∃ msg,
    outRun cfg w
    = Exit 1 (emit (EPrint (msg ++ nl)) (emit (EStdlog "out: Checking cli flags.") w))
    ∧ (KeyOutLocation cfg = "" → msg = "Need a key location in -k")
    ∧ (KeyOutLocation cfg ≠ "" → msg = "Need a file to write in -f").
Proof.
  intros Hmiss. unfold outRun, checkOutFlags, mbind, M_bind, bind, log_Print.
  destruct (String.eqb_spec (KeyOutLocation cfg) "") as [Hk|Hk].
  { eexists. split; [reflexivity|]. done. }
  destruct (String.eqb_spec (FiletoWrite cfg) "") as [Hf|Hf].
  { eexists. split; [reflexivity|]. done. }
  by destruct Hmiss.
Qed.

(** ** The snapshot and comparison file names *)

Local Abbreviation elems p := (filter (λ e, nonempty e = true) (Split slash p)).

Lemma Split_app_Split sep a b :
  Split sep (a ++ String sep b) = (Split sep a ++ Split sep b)%list.
Proof.
  induction a as [|c a IH].
  - change ("" ++ String sep b) with (String sep b). simpl. by rewrite Ascii.eqb_refl.
  - change (String c a ++ String sep b) with (String c (a ++ String sep b)).
    cbn [Split]. rewrite IH. destruct (Ascii.eqb c sep); [done|].
    pose proof (Split_not_nil sep a). by destruct (Split sep a).
Qed.

Lemma Join_snoc sep (E : list string) e :
  E ≠ [] → Join sep (E ++ [e]) = Join sep E ++ sep ++ e.
Proof.
  induction E as [|a E IH]; [done|]. intros _. destruct E as [|b E]; [done|].
  change (Join sep ((a :: b :: E) ++ [e])) with (a ++ sep ++ Join sep ((b :: E) ++ [e])).
  rewrite IH by done.
  change (Join sep (a :: b :: E)) with (a ++ sep ++ Join sep (b :: E)).
  by rewrite !append_assoc.
Qed.

Lemma clean_go_Forall (P : string → Prop) r st es :
  Forall P st → Forall P es → Forall P (clean_go r st es).
Proof.
  revert st. induction es as [|e es IH]; intros st Hst Hes; simpl.
  - by apply Forall_rev.
  - inversion Hes as [|? ? He Hes']; subst.
    destruct (String.eqb e "."); [by apply IH|].
    destruct (String.eqb e "..").
    + destruct st as [|top below].
      * destruct r; apply IH; auto.
      * inversion Hst; subst. destruct (String.eqb top ".."); apply IH; auto.
    + apply IH; auto.
Qed.

Lemma cleaned_snoc_normal r E e :
  cleaned r E → e ≠ "." → e ≠ ".." → cleaned r (E ++ [e]).
Proof.
  intros (k & normal & -> & Hk & Hn) H1 H2. exists k, (normal ++ [e])%list.
  split; [by rewrite app_assoc|]. split; [done|].
  apply Forall_app. split; [done|]. by repeat constructor.
Qed.

Lemma cleaned_prefix r E F : cleaned r (E ++ F) → cleaned r E.
Proof.
  intros (k & normal & Heq & Hk & Hn). revert k E Heq Hk.
  induction k as [|k IH]; intros E Heq Hk; simpl in Heq.
  - exists 0%nat, E. split; [done|]. split; [done|]. rewrite <- Heq in Hn.
    by apply Forall_app in Hn as [? _].
  - destruct E as [|e E]; [exists 0%nat, []; by repeat split|].
    injection Heq as -> Heq.
    destruct (IH E Heq) as (k' & n' & -> & Hk' & Hn'); [intros Hr; by specialize (Hk Hr)|].
    exists (S k'), n'. split; [done|]. split; [|done]. intros Hr. by specialize (Hk Hr).
Qed.

Lemma cleaned_dots_end r E : cleaned r (E ++ [".."]) → cleaned r (E ++ [".."; ".."]) ∧ r = false.
Proof.
  intros (k & normal & Heq & Hk & Hn).
  assert (Hnil : normal = []).
  { destruct normal as [|x normal _] using rev_ind; [done|]. exfalso.
    rewrite app_assoc in Heq. apply app_inj_tail in Heq as [_ <-].
    apply Forall_app in Hn as [_ Hn]. inversion Hn as [|? ? [_ Hx] _]. done. }
  subst normal. rewrite app_nil_r in Heq.
  assert (Hr : r = false).
  { destruct r; [|done]. rewrite Hk in Heq by done. by destruct E. }
  split; [|done]. exists (S k), []. split.
  - rewrite app_nil_r. change [".."; ".."] with ([".."] ++ [".."])%list.
    rewrite app_assoc, Heq. by rewrite <- repeat_cons.
  - split; [by rewrite Hr|done].
Qed.

Lemma cleaned_before_dots r E e : cleaned r (E ++ [".."]) → e ∈ E → e = "..".
Proof.
  intros (k & normal & Heq & _ & Hn) He.
  assert (Hnil : normal = []).
  { destruct normal as [|x normal _] using rev_ind; [done|]. exfalso.
    rewrite app_assoc in Heq. apply app_inj_tail in Heq as [_ <-].
    apply Forall_app in Hn as [_ Hn]. inversion Hn as [|? ? [_ Hx] _]. done. }
  subst normal. rewrite app_nil_r in Heq.
  assert (Hin : In e (repeat ".." k)).
  { rewrite <- Heq. apply in_or_app. left. by apply list_elem_of_In. }
  by apply repeat_spec in Hin.
Qed.

Lemma cleaned_no_dot r E : ¬ cleaned r (E ++ ["."]).
Proof.
  intros (k & normal & Heq & _ & Hn).
  destruct normal as [|x normal _] using rev_ind.
  - rewrite app_nil_r in Heq.
    assert (Hin : In "." (repeat ".." k)).
    { rewrite <- Heq. apply in_or_app. right. by left. }
    by apply repeat_spec in Hin.
  - rewrite app_assoc in Heq. apply app_inj_tail in Heq as [_ <-].
    apply Forall_app in Hn as [_ Hn]. inversion Hn as [|? ? [Hx _] _]. done.
Qed.

Lemma clean_go_cleaned r st es :
  cleaned r (rev st) → cleaned r (clean_go r st es).
Proof.
  revert st. induction es as [|e es IH]; intros st Hst; simpl; [done|].
  destruct (String.eqb_spec e ".") as [|H1]; [by apply IH|].
  destruct (String.eqb_spec e "..") as [->|H2].
  - destruct st as [|top below].
    + destruct r eqn:Hr; [by apply IH|]. apply IH. exists 1%nat, []. by repeat split.
    + destruct (String.eqb_spec top "..") as [->|Htop].
      * apply IH. simpl in *. rewrite <- app_assoc. simpl.
        by apply cleaned_dots_end.
      * apply IH. simpl in Hst. by apply cleaned_prefix in Hst.
  - apply IH. simpl. by apply cleaned_snoc_normal.
Qed.

Lemma clean_go_fixed r st es :
  cleaned r (rev st ++ es) → clean_go r st es = (rev st ++ es)%list.
Proof.
  revert st. induction es as [|e es IH]; intros st Hc; simpl.
  - by rewrite app_nil_r.
  - assert (Hsplit : (rev st ++ e :: es = rev (e :: st) ++ es)%list)
      by (simpl; by rewrite <- app_assoc).
    assert (Hpre : cleaned r (rev st ++ [e])).
    { apply (cleaned_prefix r _ es). by rewrite <- app_assoc. }
    destruct (String.eqb_spec e ".") as [->|H1].
    { exfalso. by apply cleaned_no_dot in Hpre. }
    destruct (String.eqb_spec e "..") as [->|H2].
    + destruct (cleaned_dots_end r (rev st) Hpre) as (_ & ->).
      destruct st as [|top below]; [rewrite Hsplit; apply IH; by rewrite <- Hsplit|].
      destruct (String.eqb_spec top "..") as [->|Htop];
        [rewrite Hsplit; apply IH; by rewrite <- Hsplit|].
      exfalso. apply Htop.
      apply (cleaned_before_dots false (rev (top :: below))); [exact Hpre|].
      simpl. apply elem_of_app. right. apply list_elem_of_here.
    + rewrite Hsplit. apply IH. by rewrite <- Hsplit.
Qed.

Lemma clean_go_snoc r st es n :
  n ≠ "." → n ≠ ".." →
  clean_go r st (es ++ [n]) = (clean_go r st es ++ [n])%list.
Proof.
  intros H1 H2. revert st. induction es as [|e es IH]; intros st; simpl.
  - destruct (String.eqb_spec n ".") as [|_]; [done|].
    by destruct (String.eqb_spec n "..") as [|_].
  - destruct (String.eqb e "."); [apply IH|].
    destruct (String.eqb e ".."); [|apply IH].
    destruct st as [|top below]; [destruct r; apply IH|].
    destruct (String.eqb top ".."); apply IH.
Qed.

Lemma has_byte_append c a b : has_byte c (a ++ b) = has_byte c a || has_byte c b.
Proof.
  induction a as [|x a IH]; [done|].
  change (has_byte c (String x (a ++ b)) = has_byte c (String x a) || has_byte c b).
  simpl. by rewrite IH, orb_assoc.
Qed.

Lemma filter_nonempty_fixed (E : list string) :
  Forall (λ e, e ≠ "" ∧ has_byte slash e = false) E →
  filter (λ e, nonempty e = true) E = E.
Proof.
  induction 1 as [|x xs [Hx _] _ IH]; [done|].
  rewrite filter_cons_True, IH; [done|]. unfold nonempty.
  by destruct (String.eqb_spec x "").
Qed.

Lemma elems_plain : ∀ p, Forall (λ e, e ≠ "" ∧ has_byte slash e = false) (elems p).
Proof.
  intros p. apply Forall_forall. intros e He.
  apply list_elem_of_filter in He as [Hne He]. split.
  - intros ->. done.
  - pose proof (Split_no_sep slash p) as Hall. rewrite Forall_forall in Hall. by apply Hall.
Qed.

Lemma Join_first_nonempty (a : string) (E : list string) :
  a ≠ "" → ∃ c rest, Join "/" (a :: E) = String c rest ∧ a = String c (match a with String _ t => t | _ => "" end).
Proof.
  intros Ha. destruct a as [|c t]; [done|]. destruct E as [|b E]; simpl; eauto.
Qed.

Lemma Clean_unfold x :
  Clean x
  = let r := HasPrefix x "/" in
    let E := clean_go r [] (elems x) in
    match E with
    | [] => if r then "/" else "."
    | _ => (if r then "/" else "") ++ Join "/" E
    end.
Proof.
  unfold Clean. cbv zeta.
  destruct (clean_go (HasPrefix x "/") [] (elems x)) as [|a E'] eqn:HE.
  - by destruct (HasPrefix x "/").
  - assert (Hplain : Forall (λ e, e ≠ "" ∧ has_byte slash e = false) (a :: E')).
    { rewrite <- HE. apply clean_go_Forall; [constructor|apply elems_plain]. }
    inversion Hplain as [|? ? [Ha _] _]; subst.
    assert (Hne : Join "/" (a :: E') ≠ "").
    { destruct a as [|c t]; [done|]. by destruct E'. }
    destruct (HasPrefix x "/").
    + done.
    + change ("" ++ Join "/" (a :: E')) with (Join "/" (a :: E')).
      by destruct (String.eqb_spec (Join "/" (a :: E')) "").
Qed.

(** The elements of a cleaned path are those [path.Clean] kept, and the
    path is rooted exactly when the original one is. *)
Lemma Clean_structure x :
  let r := HasPrefix x "/" in
  let E := clean_go r [] (elems x) in
  HasPrefix (Clean x) "/" = r
  ∧ clean_go r [] (elems (Clean x)) = E
  ∧ (E = [] → Clean x = if r then "/" else ".")
  ∧ (E ≠ [] → Clean x = (if r then "/" else "") ++ Join "/" E
              ∧ Clean x ≠ "/" ∧ Clean x ≠ ".").
Proof.
  intros r E.
  assert (Hplain : Forall (λ e, e ≠ "" ∧ has_byte slash e = false) E)
    by (apply clean_go_Forall; [constructor|apply elems_plain]).
  assert (Hclean : cleaned r E).
  { apply clean_go_cleaned. exists 0%nat, []. by repeat split. }
  rewrite Clean_unfold. cbv zeta. fold r. fold E.
  destruct E as [|a E'] eqn:HE.
  - destruct r; repeat split; done.
  - set (L := a :: E') in *. assert (HL : L ≠ []) by done.
    inversion Hplain as [|? ? [Ha Hfree] _]; subst.
    destruct a as [|c t] eqn:Hac; [done|].
    assert (Hj : ∃ rest, Join "/" L = String c rest).
    { unfold L. destruct E'; simpl; eauto. }
    destruct Hj as (rest & Hj).
    assert (Hc : c ≠ slash).
    { intros ->. cbn [has_byte] in Hfree. by rewrite Ascii.eqb_refl in Hfree. }
    assert (Hsplit : Split slash (Join "/" L) = L).
    { apply (Split_Join slash L HL). eapply Forall_impl; [exact Hplain|]. by intros ? [? ?]. }
    assert (Hfixed : clean_go r [] L = L) by (by apply (clean_go_fixed r [] L)).
    assert (Hnodot : Join "/" L ≠ ".").
    { intros Hdot. destruct E' as [|b E''].
      - unfold L in Hdot, Hclean. simpl in Hdot. rewrite Hdot in Hclean.
        by apply (cleaned_no_dot r []).
      - unfold L in Hdot.
        change (Join "/" (String c t :: b :: E''))
          with (String c t ++ "/" ++ Join "/" (b :: E'')) in Hdot.
        apply (f_equal String.length) in Hdot. rewrite !length_append in Hdot.
        simpl in Hdot. lia. }
    destruct r.
    + change ("/" ++ Join "/" L) with (String slash (Join "/" L)).
      split.
      { unfold HasPrefix.
        change (String.prefix "/" (String slash (Join "/" L)))
          with (if ascii_dec "/" slash then String.prefix "" (Join "/" L) else false).
        destruct (ascii_dec "/" slash) as [_|Hn]; [by destruct (Join "/" L)|by destruct Hn]. }
      split.
      * cbn [Split]. rewrite Ascii.eqb_refl, Hsplit.
        rewrite filter_cons_False by (unfold nonempty; simpl; congruence).
        by rewrite filter_nonempty_fixed.
      * split; [done|]. intros _. split; [done|]. rewrite Hj. split; done.
    + change ("" ++ Join "/" L) with (Join "/" L).
      split.
      { rewrite Hj. unfold HasPrefix.
        change (String.prefix "/" (String c rest))
          with (if ascii_dec "/" c then String.prefix "" rest else false).
        destruct (ascii_dec "/" c) as [<-|]; [by destruct Hc|done]. }
      split; [by rewrite Hsplit, filter_nonempty_fixed|].
      split; [done|]. intros _. split; [done|]. split; [|done].
      rewrite Hj. intros [= -> _]. done.
Qed.

Lemma HasPrefix_append d rest : d ≠ "" → HasPrefix (d ++ rest) "/" = HasPrefix d "/".
Proof.
  intros Hd. destruct d as [|c t]; [done|]. unfold HasPrefix.
  change (String c t ++ rest) with (String c (t ++ rest)).
  change (String.prefix "/" (String c (t ++ rest)))
    with (if ascii_dec "/" c then String.prefix "" (t ++ rest) else false).
  change (String.prefix "/" (String c t))
    with (if ascii_dec "/" c then String.prefix "" t else false).
  destruct (ascii_dec "/" c); [|done]. by destruct (t ++ rest), t.
Qed.

Lemma Base_shape p :
  Base p = "/" ∨ (Base p ≠ "" ∧ Base p ≠ "/" ∧ has_byte slash (Base p) = false).
Proof.
  unfold Base. destruct (String.eqb_spec p "") as [|_]; [by right|].
  set (q := strip_trailing_slashes p).
  destruct (String.eqb_spec (List.last (Split slash q) "") "") as [|Hne]; [by left|].
  right. split; [done|].
  assert (Hfree : has_byte slash (List.last (Split slash q) "") = false).
  { pose proof (Split_no_sep slash q) as Hall. rewrite Forall_forall in Hall.
    apply Hall. pose proof (Split_not_nil slash q) as Hnil.
    destruct (exists_last Hnil) as (l & e & ->). rewrite last_last.
    apply elem_of_app. right. apply list_elem_of_here. }
  split; [|done]. intros Heq. by rewrite Heq in Hfree.
Qed.

Lemma elems_line n :
  n ≠ "" → has_byte slash n = false → elems n = [n].
Proof.
  intros Hne Hfree. rewrite Split_line by done.
  rewrite filter_cons_True; [done|]. unfold nonempty. by destruct (String.eqb_spec n "").
Qed.

(** Joining a cleaned directory and one more element needs no cleaning. *)
Lemma path_Join_dir x n n' :
  n ≠ "" → elems n = [n'] → n' ≠ "." → n' ≠ ".." →
  path_Join [Clean x; n]
  = if String.eqb (Clean x) "/" then "/" ++ n'
    else if String.eqb (Clean x) "." then n'
    else Clean x ++ "/" ++ n'.
Proof.
  intros Hn Helems H1 H2.
  destruct (Clean_structure x) as (Hroot & HE & Hnil & Hcons). cbv zeta in *.
  set (r := HasPrefix x "/") in *. set (E := clean_go r [] (elems x)) in *.
  set (d := Clean x) in *.
  assert (Hd : d ≠ "") by apply Clean_not_empty.
  assert (Hfilter : filter (λ e, nonempty e = true) [d; n] = [d; n]).
  { rewrite !filter_cons_True; [done|..]; unfold nonempty.
    - by destruct (String.eqb_spec n "").
    - by destruct (String.eqb_spec d ""). }
  unfold path_Join. rewrite Hfilter.
  change (Join "/" [d; n]) with (d ++ String slash n).
  rewrite Clean_unfold. cbv zeta.
  rewrite HasPrefix_append, Hroot by done.
  rewrite Split_app_Split, filter_app, Helems, clean_go_snoc, HE by done.
  destruct E as [|a E'] eqn:HEq.
  - rewrite (Hnil eq_refl). simpl app. cbn [Join]. by destruct r.
  - destruct Hcons as (Hdeq & Hd1 & Hd2); [done|].
    destruct (String.eqb_spec d "/") as [|_]; [done|].
    destruct (String.eqb_spec d ".") as [|_]; [done|].
    assert (Hmatch : ∀ (L : list string) (u v : string), L ≠ [] →
              match L with [] => u | _ => v end = v) by (intros [|? ?]; done).
    rewrite Hmatch by (by destruct E').
    rewrite Join_snoc by done. rewrite Hdeq. by rewrite !append_assoc.
Qed.

Lemma sibling_name file sfx :
  has_byte slash sfx = false → (3 ≤ String.length sfx)%nat →
  path_Join [Dir file; Base file ++ sfx]
  = let name := (if String.eqb (Base file) "/" then "" else Base file) ++ sfx in
    if String.eqb (Dir file) "/" then "/" ++ name
    else if String.eqb (Dir file) "." then name
    else Dir file ++ "/" ++ name.
Proof.
  intros Hfree Hlen. cbv zeta. unfold Dir.
  assert (Hsfx : sfx ≠ "") by (intros ->; simpl in Hlen; lia).
  assert (Hlong : ∀ b, b ++ sfx ≠ "." ∧ b ++ sfx ≠ ".." ∧ b ++ sfx ≠ "").
  { intros b. repeat split; intros Heq; apply (f_equal String.length) in Heq;
      rewrite length_append in Heq; simpl in Heq; lia. }
  destruct (Base_shape file) as [->|(Hb1 & Hb2 & Hb3)].
  - change ("/" =? "/")%string with true. cbv iota.
    apply path_Join_dir.
    + apply Hlong.
    + change ("/" ++ sfx) with (String slash sfx). cbn [Split].
      rewrite Ascii.eqb_refl. rewrite filter_cons_False by (unfold nonempty; simpl; congruence).
      change ("" ++ sfx) with sfx. by apply elems_line.
    + apply (Hlong "").
    + apply (Hlong "").
  - destruct (String.eqb_spec (Base file) "/") as [|_]; [done|].
    apply path_Join_dir.
    + apply Hlong.
    + apply elems_line; [apply Hlong|]. by rewrite has_byte_append, Hb3, Hfree.
    + apply Hlong.
    + apply Hlong.
Qed.

(** X14. [LastFilename] and [CompareFilename] name a sibling of the file:
    the directory of the file ([path.Dir]), a slash unless that directory is
    the root or the working directory, and the last element of the file
    ([path.Base]) with the suffix.  The second cleaning done by [path.Join]
    never changes that name, and neither function writes anything. *)
Theorem LastFilename_beside (file : string) (w : world) :
  let name sfx := (if String.eqb (Base file) "/" then "" else Base file) ++ sfx in
  let beside n :=
    if String.eqb (Dir file) "/" then "/" ++ n
    else if String.eqb (Dir file) "." then n
    else Dir file ++ "/" ++ n in
  (∃ w', LastFilename file w = Ret (beside (name ".last")) w' ∧ w_fs w' = w_fs w)
  ∧ (∃ w', CompareFilename file w = Ret (beside (name ".compare")) w'
           ∧ w_fs w' = w_fs w).
Proof.
  intros name beside. split.
  - unfold LastFilename, mbind, M_bind, bind, Log, ret. cbv zeta.
    rewrite (sibling_name file ".last") by (done || (simpl; lia)).
    eexists. split; [reflexivity|done].
  - unfold CompareFilename, mbind, M_bind, bind, Log, ret. cbv zeta.
    rewrite (sibling_name file ".compare") by (done || (simpl; lia)).
    eexists. split; [reflexivity|done].
Qed.

(** ** An accepted apply *)

(** X15. When [outRun] returns after content that passed both checks, the
    target holds exactly the fetched content, whose digest is the declared
    checksum; the staging file is gone; and every other regular file, the
    lock marker of the target among them, is as it was. *)
Theorem outRun_commits_fetched (cfg : flags) (w w' : world) :
  let KVData := Get (KeyDataPath (KeyOutLocation cfg) (PrefixLocation cfg))
                  (ConsulServer cfg) (Token cfg) in
  let Checksum := Get (KeyChecksumPath (KeyOutLocation cfg) (PrefixLocation cfg))
                    (ConsulServer cfg) (Token cfg) in
  KeyOutLocation cfg ≠ "" → FiletoWrite cfg ≠ "" →
  LengthCheck KVData (MinFileLength cfg) = true →
  ComputeChecksum KVData = Checksum →
  outRun cfg w = Ret tt w' →
  ∃ f, w_fs w' !! FiletoWrite cfg = Some (NFile f)
       ∧ f_data f = KVData ∧ ComputeChecksum (f_data f) = Checksum
       ∧ w_fs w' !! (FiletoWrite cfg ++ "." ++ fileSuffix) = None
       ∧ file_at w' (LockFilePath (FiletoWrite cfg))
         = file_at w (LockFilePath (FiletoWrite cfg))
       ∧ ∀ q, q ≠ FiletoWrite cfg → q ≠ FiletoWrite cfg ++ "." ++ fileSuffix →
              file_at w' q = file_at w q.
Proof.
  intros KVData Checksum Hk Hf Hlen Hsum Hrun.
  rewrite outRun_unfold in Hrun by done. cbv zeta in Hrun.
  fold KVData Checksum in Hrun. unfold ChecksumCompare in Hrun.
  rewrite Hlen, Hsum, String.eqb_refl in Hrun.
  unfold mbind at 1, M_bind at 1, bind at 1 in Hrun. cbn [andb] in Hrun.
  destruct (WriteFile KVData (FiletoWrite cfg) (FilePermissions cfg) (Owner cfg) _)
    as [[] w1|code w1] eqn:Hwrite; [|done].
  destruct (post_exec_fs cfg w1) as (w2 & Hpost & Hfs & _).
  rewrite Hpost in Hrun. injection Hrun as <-.
  destruct (WriteFile_Ret _ _ _ _ _ _ Hwrite) as (f & Hfile & Hdata & Htmp & _ & Hframe).
  assert (Hframe' : ∀ q, q ≠ FiletoWrite cfg →
                         q ≠ FiletoWrite cfg ++ "." ++ fileSuffix →
                         file_at w2 q = file_at w q).
  { intros q Hq1 Hq2. unfold file_at. rewrite Hfs. by apply Hframe. }
  exists f. rewrite Hfs. split; [done|]. split; [done|].
  split; [by rewrite Hdata|]. split; [done|]. split; [|done].
  apply Hframe'.
  - unfold LockFilePath. by apply staging_path_fresh.
  - unfold LockFilePath. intros Heq. by apply (inj (String.append _)) in Heq.
Qed.

(** ** When the writer returns *)

(** X16. [WriteFile] returns exactly when everything it needs goes through:
    the directories can be made, no directory sits at the staging path or at
    the target path, and the system refuses neither the write, nor the change
    of owner, nor the rename.  In every other case the run ends there. *)
Theorem WriteFile_returns_iff (data filepath : string) (perms : Z) (owner : string)
    (w : world) :
  let tmp := filepath ++ "." ++ fileSuffix in
  (∃ w', WriteFile data filepath perms owner w = Ret tt w')
  ↔ ∃ w1, CheckFullPath filepath w = Ret tt w1
          ∧ w_fs w1 !! tmp ≠ Some NDir ∧ w_fs w1 !! filepath ≠ Some NDir
          ∧ w_fails w (OpWrite tmp) = false
          ∧ w_fails w (OpChown tmp (GetOwnerID owner) (GetGroupID owner)) = false
          ∧ w_fails w (OpRename tmp filepath) = false.
Proof.
  intros tmp. split.
  - intros (w' & Hrun).
    assert (Hfresh : tmp ≠ filepath) by (by apply staging_path_fresh).
    pose proof (WriteFile_spec data filepath perms owner w) as Hspec.
    cbv zeta in Hspec. rewrite Hrun in Hspec. fold tmp in Hspec.
    destruct Hspec as (w1 & w2 & w3 & Hc & Hw & Hch & Hr & H2 & H3 & _).
    destruct (ioutil_WriteFile_ok _ _ _ _ _ Hw) as (Hokw & Hnd1).
    pose proof (ChownFile_ok _ _ _ _ _ Hch) as Hokc.
    destruct (os_Rename_ok _ _ _ _ Hr) as (Hokr & Hnd3).
    rewrite H3, lookup_insert_ne in Hnd3 by done.
    pose proof (CheckFullPath_spec filepath w) as Hcs. rewrite Hc in Hcs.
    destruct Hcs as ((_ & _ & _ & Hf1) & _ & _).
    assert (Hf2 : w_fails w2 = w_fails w).
    { unfold ioutil_WriteFile in Hw. rewrite Hokw in Hw.
      destruct (w_fs w1 !! tmp) as [[|f0]|]; simplify_eq; done. }
    assert (Hf3 : w_fails w3 = w_fails w).
    { unfold ChownFile, os_Chown, mbind, M_bind, bind in Hch. rewrite Hokc in Hch.
      destruct (w_fs w2 !! tmp) as [[|f0]|]; cbv beta iota delta [ret] in Hch;
        simplify_eq; simpl; congruence. }
    rewrite Hf1 in Hokw. rewrite Hf2 in Hokc. rewrite Hf3 in Hokr.
    exists w1. done.
  - intros (w1 & Hc & Hn1 & Hn2 & Hw & Hch & Hr).
    by apply (WriteFile_succeeds data filepath perms owner w w1).
Qed.

(** ** The snapshot file, again *)

(** X17. [CheckLastFile] is idempotent and keeps to its file: once it has
    returned, running it again changes nothing at all, and whatever its
    outcome every regular file other than the named one and its staging file
    is as it was. *)
Theorem CheckLastFile_once (file : string) (perms : Z) (owner : string) (w : world) :
  (∀ w1, CheckLastFile file perms owner w = Ret tt w1 →
         CheckLastFile file perms owner w1 = Ret tt w1)
  ∧ (∀ q, q ≠ file → q ≠ file ++ "." ++ fileSuffix →
          file_at (final (CheckLastFile file perms owner w)) q = file_at w q).
Proof.
  split.
  - intros w1 Hrun.
    assert (Hthere : is_Some (w_fs w1 !! file)).
    { unfold CheckLastFile, os_Stat, mbind, M_bind, bind in Hrun.
      destruct (w_fs w !! file) as [n|] eqn:Hn.
      - cbv beta iota delta [ret] in Hrun. injection Hrun as <-. eauto.
      - cbv beta iota delta [Log] in Hrun.
        destruct (WriteFile_Ret _ _ _ _ _ _ Hrun) as (f & Hf & _). eauto. }
    destruct Hthere as [n Hn].
    unfold CheckLastFile, os_Stat, mbind, M_bind, bind. by rewrite Hn.
  - intros q Hq1 Hq2. unfold CheckLastFile, os_Stat, mbind, M_bind, bind.
    destruct (w_fs w !! file) as [n|] eqn:Hn; [done|].
    cbv beta iota delta [Log].
    set (w0 := emit _ w).
    pose proof (WriteFile_spec blank_file file perms owner w0) as Hspec.
    cbv zeta in Hspec.
    destruct (WriteFile blank_file file perms owner w0) as [[] w'|code w'] eqn:Hrun; simpl.
    + destruct (WriteFile_Ret _ _ _ _ _ _ Hrun) as (_ & _ & _ & _ & _ & Hframe).
      by rewrite Hframe.
    + destruct Hspec as (_ & _ & Hframe). by rewrite Hframe.
Qed.

End Commands.


(** * Worked examples *)

(** ** The library functions on the examples of their documentation *)

Example Clean_examples :
  map Clean ["a/c"; "a//c"; "a/c/."; "a/c/b/.."; "/../a/c"; "/../a/b/../././/c"; ""]
  = ["a/c"; "a/c"; "a/c"; "a/c"; "/a/c"; "/a/c"; "."].
Proof. reflexivity. Qed.

Example Dir_examples :
  map Dir ["/a/b/c"; "a/b/c"; "/a/"; "a/"; "/"; ""; "app.conf"; "/etc/app.conf"]
  = ["/a/b"; "a/b"; "/a"; "a"; "/"; "."; "."; "/etc"].
Proof. reflexivity. Qed.

Example Base_examples :
  map Base ["/a/b"; "/"; ""; "a/b/"; "///"] = ["b"; "/"; "."; "b"; "/"].
Proof. reflexivity. Qed.

Example path_Join_examples :
  (path_Join ["a"; "b/c"], path_Join ["a/b"; "../../../xyz"], path_Join [""; ""],
   path_Join ["/etc"; "app.conf.last"])
  = ("a/b/c", "../xyz", "", "/etc/app.conf.last").
Proof. reflexivity. Qed.

Example Split_Join_examples :
  Split newline ("b" ++ nl ++ nl ++ "a" ++ nl) = ["b"; ""; "a"; ""]
  ∧ Split newline "" = [""]
  ∧ Join nl ["a"; "b"] = "a" ++ nl ++ "b"
  ∧ Join nl [] = "".
Proof. repeat split; reflexivity. Qed.

Example FormatInt_examples :
  (FormatInt 416 8, FormatInt 0 10, FormatInt (-12) 10, FormatInt 1000 10)
  = ("640", "0", "-12", "1000").
Proof. reflexivity. Qed.

Example dir_chain_examples :
  dir_chain "" "/etc/kvexpress/conf.d" = ["/etc"; "/etc/kvexpress"; "/etc/kvexpress/conf.d"]
  ∧ dir_chain "" "a/b" = ["a"; "a/b"]
  ∧ dir_chain "" "/" = ["/"].
Proof. repeat split; reflexivity. Qed.

Example LastFilename_example :
  LastFilename "/etc/app.conf" fresh_machine
  = Ret "/etc/app.conf.last"
      (emit (ELog "file='last' fullPath='/etc/app.conf.last'" "debug") fresh_machine).
Proof. reflexivity. Qed.

Example SortFile_example :
  ∃ w', SortFile ("b" ++ nl ++ nl ++ "a" ++ nl ++ "B") fresh_machine
        = Ret ("B" ++ nl ++ "a" ++ nl ++ "b") w'.
Proof. eexists. vm_compute. reflexivity. Qed.

(** ** [WriteFile] *)

Lemma WriteFile_commit_atomic_witness :
  ∃ w' f,
    WriteFile sample_id sample_id sample_content "/etc/app.conf" 416 "root" fresh_machine
    = Ret tt w'
    ∧ file_at w' "/etc/app.conf" = Some f
    ∧ f_data f = sample_content ∧ f_mode f = 416
    ∧ ReadFile "/etc/app.conf" w' = Ret sample_content w'.
Proof.
  pose proof (WriteFile_commit_atomic sample_id sample_id sample_content
                "/etc/app.conf" 416 "root" fresh_machine) as H.
  cbv zeta in H.
  destruct (WriteFile sample_id sample_id sample_content "/etc/app.conf" 416 "root"
              fresh_machine) as [[] w'|code w'] eqn:Hrun.
  - destruct H as (w1 & w2 & w3 & _ & _ & _ & _ & _ & _ & _ & _ & _
                   & Hfin & _ & Hdata & Hread & _ & _ & Hmode).
    exists w'. eexists. split; [reflexivity|]. split; [exact Hfin|].
    split; [exact Hdata|]. split.
    + apply Hmode; [reflexivity|lia|reflexivity].
    + apply Hread. injection Hrun as <-. reflexivity.
  - vm_compute in Hrun. discriminate Hrun.
Defined.

(** With the usual umask 022, a file requested with mode 0666 is committed
    with mode 0644. *)
Lemma WriteFile_mode_counterexample :
  ∃ w' f,
    WriteFile sample_id sample_id sample_content "/etc/app.conf" 438 "root" fresh_machine
    = Ret tt w'
    ∧ file_at w' "/etc/app.conf" = Some f
    ∧ f_data f = sample_content ∧ f_mode f = 420 ∧ f_mode f ≠ 438.
Proof.
  eexists. exists (mkFile sample_content 420 0 0).
  split; [vm_compute; reflexivity|]. split; [vm_compute; reflexivity|].
  split; [reflexivity|]. split; [reflexivity|]. simpl. lia.
Qed.

(** ** The snapshot file *)

Lemma CheckLastFile_creates_placeholder_witness :
  (∃ w' f,
     CheckLastFile sample_id sample_id "/etc/app.conf.last" 416 "root" fresh_machine
     = Ret tt w'
     ∧ w_fs w' !! "/etc/app.conf.last" = Some (NFile f) ∧ f_data f = blank_file)
  ∧ CheckLastFile sample_id sample_id "/etc/app.conf.locked" 416 "root" locked_machine
    = Ret tt locked_machine.
Proof.
  split.
  - destruct (CheckLastFile_creates_placeholder sample_id sample_id
                "/etc/app.conf.last" 416 "root" fresh_machine) as (Hnew & _).
    destruct (Hnew eq_refl) as (_ & Hdata).
    set (w' := final (CheckLastFile sample_id sample_id "/etc/app.conf.last" 416 "root"
                        fresh_machine)).
    assert (Hrun : CheckLastFile sample_id sample_id "/etc/app.conf.last" 416 "root"
                     fresh_machine = Ret tt w') by (vm_compute; reflexivity).
    destruct (Hdata w' Hrun) as (f & Hf & Hblank).
    exists w', f. split; [exact Hrun|]. split; [exact Hf|exact Hblank].
  - destruct (CheckLastFile_creates_placeholder sample_id sample_id
                "/etc/app.conf.locked" 416 "root" locked_machine) as (_ & Hold).
    apply Hold. vm_compute. eexists. reflexivity.
Defined.

(** On a machine where nothing was ever committed, [CheckLastFile] writes the
    snapshot, and what it writes is the placeholder; and a commit by [outRun]
    leaves no snapshot behind. *)
Lemma CheckLastFile_snapshot_counterexample :
  (∃ w',
     CheckLastFile sample_id sample_id "/etc/app.conf.last" 416 "root" fresh_machine
     = Ret tt w'
     ∧ file_at fresh_machine "/etc/app.conf" = None
     ∧ file_at w' "/etc/app.conf" = None
     ∧ file_at w' "/etc/app.conf.last" = Some (mkFile blank_file 416 0 0))
  ∧ (∃ w',
       outRun sample_checksum sample_id sample_id sample_key_data sample_key_checksum
         (sample_store sample_content (sample_checksum sample_content))
         LengthCheck_bytes
         (sample_flags "/etc/app.conf" "") fresh_machine = Ret tt w'
       ∧ file_at w' "/etc/app.conf" = Some (mkFile sample_content 416 0 0)
       ∧ w_fs w' !! "/etc/app.conf.last" = None).
Proof.
  split; eexists; (split; [vm_compute; reflexivity|]); repeat split; vm_compute; reflexivity.
Qed.

(** ** The lock marker *)


(** ** Reading *)

Lemma ReadFile_failure_is_empty_witness :
  ReadFile "/etc/missing" fresh_machine = Ret "" fresh_machine
  ∧ ReadFile "/etc" locked_machine = Ret "" locked_machine
  ∧ (ioutil_ReadFile "/etc/app.conf" (unreadable_machine 3)
     = Ret ("lis", true) (unreadable_machine 3)
     ∧ ReadFile "/etc/app.conf" (unreadable_machine 3) = Ret "" (unreadable_machine 3))
  ∧ (let w := machine_with [("/etc/empty", NFile (mkFile "" 416 0 0))] in
     ReadFile "/etc/empty" w = Ret "" w)
  ∧ ReadFile "/etc/app.conf" locked_machine = Ret ("listen=80" ++ nl) locked_machine.
Proof.
  destruct (ReadFile_failure_is_empty "/etc/missing" fresh_machine)
    as (_ & Hmissing & _).
  destruct (ReadFile_failure_is_empty "/etc" locked_machine) as (_ & _ & Hdir & _).
  destruct (ReadFile_failure_is_empty "/etc/app.conf" (unreadable_machine 3))
    as (Hfailed & _ & _ & Hrefused & _).
  destruct (ReadFile_failure_is_empty "/etc/empty"
              (machine_with [("/etc/empty", NFile (mkFile "" 416 0 0))]))
    as (_ & _ & _ & _ & Hempty & _).
  destruct (ReadFile_failure_is_empty "/etc/app.conf" locked_machine)
    as (_ & _ & _ & _ & _ & Hwhole & _).
  split; [apply Hmissing; reflexivity|].
  split; [apply Hdir; vm_compute; reflexivity|].
  split; [split; [vm_compute; reflexivity|apply Hrefused; reflexivity]|].
  split; [apply (Hempty (mkFile "" 416 0 0)); [vm_compute; reflexivity|reflexivity]|].
  vm_compute. reflexivity.
Defined.

(** ** The [out] command *)

Lemma outRun_writes_only_valid_witness :
  let out := outRun sample_checksum sample_id sample_id sample_key_data
               sample_key_checksum in
  (∃ w', out (sample_store "short" (sample_checksum "short")) LengthCheck_bytes
           (sample_flags "/etc/app.conf" "") locked_machine = Ret tt w'
         ∧ w_fs w' = w_fs locked_machine
         ∧ EStdlog "Could not write file." ∈ w_trace w')
  ∧ (∃ w', out (sample_store sample_content "0:") LengthCheck_lines
             (sample_flags "/etc/app.conf" "") locked_machine = Ret tt w'
           ∧ w_fs w' = w_fs locked_machine
           ∧ EStdlog "Could not write file." ∈ w_trace w')
  ∧ LengthCheck_bytes sample_content 10 = true
  ∧ 10 ≤ Z.of_nat (String.length sample_content)
  ∧ sample_checksum sample_content = sample_checksum sample_content.
Proof.
  intros out. split; [|split].
  - destruct (outRun_writes_only_valid sample_checksum sample_id sample_id
                sample_key_data sample_key_checksum
                (sample_store "short" (sample_checksum "short")) LengthCheck_bytes
                (sample_flags "/etc/app.conf" "") locked_machine
                LengthCheck_bytes_short) as (Hrej & _).
    apply Hrej; [discriminate|discriminate|]. left. vm_compute. reflexivity.
  - destruct (outRun_writes_only_valid sample_checksum sample_id sample_id
                sample_key_data sample_key_checksum
                (sample_store sample_content "0:") LengthCheck_lines
                (sample_flags "/etc/app.conf" "") locked_machine
                LengthCheck_lines_short) as (Hrej & _).
    apply Hrej; [discriminate|discriminate|]. right. vm_compute. discriminate.
  - destruct (outRun_writes_only_valid sample_checksum sample_id sample_id
                sample_key_data sample_key_checksum
                (sample_store sample_content (sample_checksum sample_content))
                LengthCheck_bytes
                (sample_flags "/etc/app.conf" "") fresh_machine
                LengthCheck_bytes_short) as (_ & Hwritten).
    apply Hwritten. vm_compute. discriminate.
Defined.

(** C2 (what the code does). With the marker [/etc/app.conf.locked] in
    place, [outRun] given valid content of the right checksum returns with
    [/etc/app.conf] overwritten, under either reading of the length check: it
    does not look at the marker. *)
Theorem outRun_writes_locked_target :
  let out := outRun sample_checksum sample_id sample_id sample_key_data
               sample_key_checksum
               (sample_store sample_content (sample_checksum sample_content)) in
  is_Some (w_fs locked_machine !! LockFilePath "/etc/app.conf")
  ∧ file_at locked_machine "/etc/app.conf" = Some (mkFile ("listen=80" ++ nl) 416 0 0)
  ∧ (∃ w', out LengthCheck_bytes (sample_flags "/etc/app.conf" "") locked_machine
           = Ret tt w'
           ∧ file_at w' "/etc/app.conf" = Some (mkFile sample_content 416 0 0))
  ∧ (∃ w', out LengthCheck_lines (sample_flags "/etc/app.conf" "") locked_machine
           = Ret tt w'
           ∧ file_at w' "/etc/app.conf" = Some (mkFile sample_content 416 0 0)).
Proof.
  intros out.
  split; [vm_compute; eexists; reflexivity|].
  split; [vm_compute; reflexivity|].
  split; eexists; (split; [vm_compute; reflexivity|]); vm_compute; reflexivity.
Qed.

(** C3 (what the code does). A second apply of the same content is no skip:
    after [outRun] has written the content to [/etc/app.conf], [outRun] run
    again with the same content and checksum is again the writer's run: it
    returns after staging and renaming over the target, as its log says, under
    either reading of the length check.  Where the target holds the content
    with another mode and owner, the rewrite shows in the file.
    [CheckFiletoWrite], which would have stopped the run with exit code 0
    before any write, is not called. *)
Theorem outRun_rewrites_unchanged_target :
  let out := outRun sample_checksum sample_id sample_id sample_key_data
               sample_key_checksum
               (sample_store sample_content (sample_checksum sample_content)) in
  let cfg := sample_flags "/etc/app.conf" "" in
  let checked (w : world) :=
    emit (EStdlog "out: checksumMatch='true'")
      (emit (EStdlog "out: longEnough='true'")
         (emit (EStdlog "out: Required cli flags present.")
            (emit (EStdlog "out: Checking cli flags.") w))) in
  let second_run :=
    [EStdlog "out: Checking cli flags.";
     EStdlog "out: Required cli flags present.";
     EStdlog "out: longEnough='true'";
     EStdlog "out: checksumMatch='true'";
     ELog "file_wrote='true' location='/etc/app.conf' permissions='640'" "debug";
     ELog "file_chown='true' location='/etc/app.conf' owner='0' group='0'" "debug"] in
  let applied_again (length_check : string → Z → bool) :=
    ∃ w1 w2,
      out length_check cfg fresh_machine = Ret tt w1
      ∧ file_at w1 "/etc/app.conf" = Some (mkFile sample_content 416 0 0)
      ∧ CheckFiletoWrite sample_checksum "/etc/app.conf" (sample_checksum sample_content) w1
        = Exit 0 (emit (ELog "'/etc/app.conf' has the same checksum. Stopping." "info") w1)
      ∧ out length_check cfg w1 = Ret tt w2
      ∧ out length_check cfg w1
        = WriteFile sample_id sample_id sample_content "/etc/app.conf" 416 "root"
            (checked w1)
      ∧ w_trace w2 = (w_trace w1 ++ second_run)%list in
  let rewritten (length_check : string → Z → bool) :=
    ∃ w0 w',
      file_at current_machine "/etc/app.conf" = Some (mkFile sample_content 384 1000 1000)
      ∧ CheckFiletoWrite sample_checksum "/etc/app.conf" (sample_checksum sample_content)
          current_machine = Exit 0 w0
      ∧ w_fs w0 = w_fs current_machine
      ∧ out length_check cfg current_machine = Ret tt w'
      ∧ file_at w' "/etc/app.conf" = Some (mkFile sample_content 416 0 0)
      ∧ w_fs w' ≠ w_fs current_machine in
  applied_again LengthCheck_bytes ∧ applied_again LengthCheck_lines
  ∧ rewritten LengthCheck_bytes ∧ rewritten LengthCheck_lines.
Proof.
  intros out cfg checked second_run applied_again rewritten.
  assert (Hagain : ∀ lc, lc = LengthCheck_bytes ∨ lc = LengthCheck_lines →
                         applied_again lc).
  { intros lc Hlc.
    exists (final (out lc cfg fresh_machine)),
           (final (out lc cfg (final (out lc cfg fresh_machine)))).
    destruct Hlc as [->| ->];
      (split; [vm_compute; reflexivity|]);
      (split; [vm_compute; reflexivity|]);
      (split; [vm_compute; reflexivity|]);
      (split; [vm_compute; reflexivity|]);
      (split; [vm_compute; reflexivity|]);
      vm_compute; reflexivity. }
  assert (Hrewritten : ∀ lc, lc = LengthCheck_bytes ∨ lc = LengthCheck_lines →
                             rewritten lc).
  { intros lc Hlc.
    exists (final (CheckFiletoWrite sample_checksum "/etc/app.conf"
                     (sample_checksum sample_content) current_machine)),
           (final (out lc cfg current_machine)).
    destruct Hlc as [->| ->];
      (split; [vm_compute; reflexivity|]);
      (split; [vm_compute; reflexivity|]);
      (split; [vm_compute; reflexivity|]);
      (split; [vm_compute; reflexivity|]);
      (split; [vm_compute; reflexivity|]);
      intros Heq; apply (f_equal (λ m, m !! "/etc/app.conf")) in Heq;
      vm_compute in Heq; discriminate Heq. }
  split; [apply Hagain; by left|]. split; [apply Hagain; by right|].
  split; [apply Hrewritten; by left|apply Hrewritten; by right].
Qed.

(** C5 (what the code does). With content below the minimum length and a
    command configured in [PostExec], [outRun] writes nothing, logs that it
    could not write, and then runs the command, under either reading of the
    length check. *)
Theorem outRun_runs_command_after_rejection :
  let out := outRun sample_checksum sample_id sample_id sample_key_data
               sample_key_checksum (sample_store "short" (sample_checksum "short")) in
  let rejected_then_run :=
    [EStdlog "out: Checking cli flags.";
     EStdlog "out: Required cli flags present.";
     EStdlog "out: longEnough='false'";
     EStdlog "out: checksumMatch='true'";
     EStdlog "Could not write file.";
     EStdlog "out: exec='service app reload'";
     EExec "service app reload"] in
  (∃ w', out LengthCheck_bytes (sample_flags "/etc/app.conf" "service app reload")
           fresh_machine = Ret tt w'
         ∧ w_fs w' = w_fs fresh_machine ∧ w_trace w' = rejected_then_run)
  ∧ (∃ w', out LengthCheck_lines (sample_flags "/etc/app.conf" "service app reload")
             fresh_machine = Ret tt w'
           ∧ w_fs w' = w_fs fresh_machine ∧ w_trace w' = rejected_then_run).
Proof.
  intros out rejected_then_run.
  split; eexists; (split; [vm_compute; reflexivity|]); split; vm_compute; reflexivity.
Qed.

(** C8 (what the code does). Given the relative target path [app.conf] and
    valid content, [checkOutFlags] lets the run pass and [outRun] writes the
    file, under either reading of the length check; [CheckFullFilename], which
    would have ended the run with code 1, is not called. *)
Theorem outRun_writes_relative_target :
  let out := outRun sample_checksum sample_id sample_id sample_key_data
               sample_key_checksum
               (sample_store sample_content (sample_checksum sample_content)) in
  HasPrefix "app.conf" "/" = false
  ∧ file_at fresh_machine "app.conf" = None
  ∧ (∃ w', CheckFullFilename "app.conf" fresh_machine = Exit 1 w'
           ∧ w_fs w' = w_fs fresh_machine)
  ∧ (∃ w', checkOutFlags (sample_flags "app.conf" "") fresh_machine = Ret tt w')
  ∧ (∃ w', out LengthCheck_bytes (sample_flags "app.conf" "") fresh_machine = Ret tt w'
           ∧ file_at w' "app.conf" = Some (mkFile sample_content 416 0 0))
  ∧ (∃ w', out LengthCheck_lines (sample_flags "app.conf" "") fresh_machine = Ret tt w'
           ∧ file_at w' "app.conf" = Some (mkFile sample_content 416 0 0)).
Proof.
  intros out.
  split; [reflexivity|]. split; [reflexivity|].
  split; [eexists; split; vm_compute; reflexivity|].
  split; [eexists; vm_compute; reflexivity|].
  split; eexists; (split; [vm_compute; reflexivity|]); vm_compute; reflexivity.
Qed.

(** ** Further worked examples *)

Example LastFilename_edge_examples :
  (∃ w', LastFilename "/etc/app.conf" fresh_machine = Ret "/etc/app.conf.last" w')
  ∧ (∃ w', LastFilename "app.conf" fresh_machine = Ret "app.conf.last" w')
  ∧ (∃ w', LastFilename "a/b/" fresh_machine = Ret "a/b/b.last" w')
  ∧ (∃ w', LastFilename "/" fresh_machine = Ret "/.last" w')
  ∧ (∃ w', LastFilename "" fresh_machine = Ret "..last" w')
  ∧ (∃ w', CompareFilename "../x/./y.conf" fresh_machine = Ret "../x/y.conf.compare" w').
Proof. repeat split; eexists; vm_compute; reflexivity. Qed.

Lemma SortFile_ignores_outer_newlines_witness :
  ∃ w1 w2 w3,
    SortFile "" fresh_machine = Ret "" w1
    ∧ SortFile ("" ++ nl) fresh_machine = Ret "" w2
    ∧ SortFile (nl ++ "") fresh_machine = Ret "" w3.
Proof.
  destruct (SortFile_ignores_outer_newlines "" fresh_machine)
    as (out & w1 & w2 & w3 & H1 & H2 & H3 & Hempty).
  rewrite (Hempty (or_introl eq_refl)) in H1, H2, H3.
  exists w1, w2, w3. split; [exact H1|]. split; [exact H2|exact H3].
Defined.

Lemma CheckFullPath_makes_directories_witness :
  (∃ w', CheckFullPath "/etc/app/app.conf" fresh_machine = Ret tt w'
         ∧ w_fs w' !! "/etc/app" = Some NDir)
  ∧ (∃ w', CheckFullPath "/etc/app/app.conf"
             (machine_with [("/etc", NFile (mkFile "not a directory" 416 0 0))])
           = Exit 1 w'
           ∧ w_fs w' !! "/etc" = Some (NFile (mkFile "not a directory" 416 0 0))).
Proof.
  split.
  - destruct (CheckFullPath_makes_directories "/etc/app/app.conf" fresh_machine)
      as (Hrun & _ & _).
    destruct (CheckFullPath "/etc/app/app.conf" fresh_machine) as [[] w'|code w'] eqn:Hc.
    + destruct Hrun as (Hdir & _). exists w'. split; [reflexivity|].
      apply Hdir. reflexivity.
    + vm_compute in Hc. discriminate Hc.
  - destruct (CheckFullPath_makes_directories "/etc/app/app.conf"
                (machine_with [("/etc", NFile (mkFile "not a directory" 416 0 0))]))
      as (_ & _ & Hblocked).
    apply (Hblocked "/etc"); [|reflexivity|vm_compute; reflexivity].
    vm_compute. apply list_elem_of_here.
Defined.

Lemma ChownFile_changes_owner_only_witness :
  ∃ w', ChownFile sample_id sample_id "/etc/app.conf" "deploy" locked_machine
        = Ret (true, 1000, 1000) w'
        ∧ w_fs w' !! "/etc/app.conf" = Some (NFile (mkFile ("listen=80" ++ nl) 416 1000 1000))
        ∧ w_fs w' !! "/etc/app.conf.locked" = w_fs locked_machine !! "/etc/app.conf.locked".
Proof.
  pose proof (ChownFile_changes_owner_only sample_id sample_id "/etc/app.conf" "deploy"
                locked_machine) as H.
  destruct (ChownFile sample_id sample_id "/etc/app.conf" "deploy" locked_machine)
    as [[[ok oid] gid] w'|code w'] eqn:Hc.
  - destruct H as (-> & -> & -> & Hframe & Hfile). exists w'.
    split; [reflexivity|]. split; [exact Hfile|]. apply Hframe. discriminate.
  - vm_compute in Hc. discriminate Hc.
Defined.

Lemma WriteFile_touches_two_paths_witness :
  file_at (final (WriteFile sample_id sample_id sample_content "/etc/app.conf" 416 "root"
                    locked_machine)) "/etc/app.conf.locked"
  = file_at locked_machine "/etc/app.conf.locked".
Proof.
  apply (WriteFile_touches_two_paths sample_id sample_id); discriminate.
Defined.

Lemma WriteFile_twice_witness :
  ∃ w',
    WriteFile sample_id sample_id sample_content "/etc/app.conf" 416 "root" fresh_machine
    = Ret tt w'
    ∧ (∃ w'', WriteFile sample_id sample_id sample_content "/etc/app.conf" 416 "root" w'
              = Ret tt w''
              ∧ w_fs w'' = w_fs w')
    ∧ (let v := mkWorld (w_fs w') 18 0 0 no_rename [] in
       ∃ v', WriteFile sample_id sample_id sample_content "/etc/app.conf" 416 "root" v
             = Exit 1 v'
             ∧ file_at v' "/etc/app.conf" = file_at w' "/etc/app.conf").
Proof.
  set (w' := final (WriteFile sample_id sample_id sample_content "/etc/app.conf" 416
                      "root" fresh_machine)).
  assert (Hrun : WriteFile sample_id sample_id sample_content "/etc/app.conf" 416 "root"
                   fresh_machine = Ret tt w') by (vm_compute; reflexivity).
  exists w'. split; [exact Hrun|]. split.
  - destruct (WriteFile_twice sample_id sample_id sample_content "/etc/app.conf" 416 "root"
                fresh_machine w' w' eq_refl Hrun eq_refl eq_refl eq_refl eq_refl)
      as (_ & Hsame & Hreturns).
    destruct (Hreturns eq_refl eq_refl eq_refl) as (w'' & Hagain).
    exists w''. split; [exact Hagain|exact (Hsame w'' Hagain)].
  - intros v.
    destruct (WriteFile_twice sample_id sample_id sample_content "/etc/app.conf" 416 "root"
                fresh_machine w' v eq_refl Hrun eq_refl eq_refl eq_refl eq_refl)
      as (Htarget & _).
    exists (final (WriteFile sample_id sample_id sample_content "/etc/app.conf" 416 "root"
                     v)).
    split; [vm_compute; reflexivity|exact Htarget].
Defined.

Lemma WriteFile_failed_rename_witness :
  let w := machine_with [("/etc", NDir); ("/etc/app.conf", NDir)] in
  ∃ w' f,
    WriteFile sample_id sample_id sample_content "/etc/app.conf" 416 "root" w = Exit 1 w'
    ∧ w_fs w' !! "/etc/app.conf" = Some NDir
    ∧ file_at w' "/etc/app.conf.kvexpress" = Some f ∧ f_data f = sample_content.
Proof.
  intros w.
  destruct (WriteFile_failed_rename sample_id sample_id sample_content "/etc/app.conf"
              416 "root" w w) as (w' & f & Hrun & Hdir & _ & Hstaged & Hdata & _).
  - vm_compute. reflexivity.
  - vm_compute. discriminate.
  - reflexivity.
  - reflexivity.
  - right. vm_compute. reflexivity.
  - exists w', f. split; [exact Hrun|]. split; [rewrite Hdir; vm_compute; reflexivity|].
    split; [exact Hstaged|exact Hdata].
Defined.

Lemma CheckFiletoWrite_decides_witness :
  (∃ w', CheckFiletoWrite sample_checksum "/etc/app.conf"
           (sample_checksum ("listen=80" ++ nl)) locked_machine = Exit 0 w')
  ∧ (∃ w', CheckFiletoWrite sample_checksum "/etc/app.conf"
             (sample_checksum sample_content) locked_machine = Ret tt w')
  ∧ (∃ w', CheckFiletoWrite sample_checksum "/etc/app.conf"
             (sample_checksum "listen") (unreadable_machine 6) = Exit 0 w')
  ∧ (∃ w', CheckFiletoWrite sample_checksum "/etc/app.conf"
             (sample_checksum ("listen=80" ++ nl)) (unreadable_machine 6) = Ret tt w')
  ∧ (∃ w', CheckFiletoWrite sample_checksum "/etc/app.conf"
             (sample_checksum "") (unreadable_machine 6) = Ret tt w').
Proof.
  destruct (CheckFiletoWrite_decides sample_checksum "/etc/app.conf"
              (sample_checksum ("listen=80" ++ nl)) locked_machine) as (_ & Hsame).
  destruct (CheckFiletoWrite_decides sample_checksum "/etc/app.conf"
              (sample_checksum sample_content) locked_machine) as (_ & Hother).
  destruct (CheckFiletoWrite_decides sample_checksum "/etc/app.conf"
              (sample_checksum "listen") (unreadable_machine 6)) as (_ & Hcut).
  destruct (CheckFiletoWrite_decides sample_checksum "/etc/app.conf"
              (sample_checksum ("listen=80" ++ nl)) (unreadable_machine 6)) as (_ & Hwhole).
  destruct (CheckFiletoWrite_decides sample_checksum "/etc/app.conf"
              (sample_checksum "") (unreadable_machine 6)) as (_ & Hnone).
  change (w_fs locked_machine !! "/etc/app.conf")
    with (Some (NFile (mkFile ("listen=80" ++ nl) 416 0 0))) in Hsame, Hother.
  change (w_fs (unreadable_machine 6) !! "/etc/app.conf")
    with (Some (NFile (mkFile ("listen=80" ++ nl) 416 0 0))) in Hcut, Hwhole, Hnone.
  cbv iota in Hsame, Hother, Hcut, Hwhole, Hnone.
  destruct Hsame as (seen1 & err1 & _ & Hread1 & _ & Hskip & _).
  destruct Hother as (seen2 & err2 & _ & Hread2 & _ & _ & Hgo & _).
  destruct Hcut as (seen3 & err3 & _ & _ & Hread3 & Hskip3 & _).
  destruct Hwhole as (seen4 & err4 & _ & _ & Hread4 & _ & Hgo4 & _).
  destruct Hnone as (seen5 & err5 & _ & _ & Hread5 & _ & Hgo5 & _).
  destruct (Hread1 eq_refl) as (-> & _). destruct (Hread2 eq_refl) as (-> & _).
  destruct (Hread3 eq_refl) as (_ & -> & _). destruct (Hread4 eq_refl) as (_ & -> & _).
  destruct (Hread5 eq_refl) as (_ & -> & _).
  split; [apply Hskip; vm_compute; reflexivity|].
  split; [apply Hgo; vm_compute; discriminate|].
  split; [apply Hskip3; vm_compute; reflexivity|].
  split; [apply Hgo4; vm_compute; discriminate|].
  apply Hgo5; vm_compute; discriminate.
Defined.

Lemma RemoveFile_removes_one_path_witness :
  w_fs (final (RemoveFile "/etc/app.conf.locked" locked_machine)) !! "/etc/app.conf"
  = w_fs locked_machine !! "/etc/app.conf".
Proof.
  destruct (RemoveFile_removes_one_path "/etc/app.conf.locked" locked_machine)
    as (Hframe & _).
  apply Hframe. discriminate.
Defined.

Lemma Lock_then_Unlock_witness :
  let cfg := sample_flags "/etc/app.conf" "" in
  ∃ w1 w2,
    LockFileWrite sample_id sample_id cfg "/etc/app.conf" fresh_machine = Ret tt w1
    ∧ LockFileRemove "/etc/app.conf" w1 = Ret tt w2
    ∧ w_fs w2 !! "/etc/app.conf.locked" = None
    ∧ file_at w2 "/etc/app.conf" = file_at fresh_machine "/etc/app.conf".
Proof.
  intros cfg.
  set (w1 := final (LockFileWrite sample_id sample_id cfg "/etc/app.conf" fresh_machine)).
  assert (Hlock : LockFileWrite sample_id sample_id cfg "/etc/app.conf" fresh_machine
                  = Ret tt w1) by (vm_compute; reflexivity).
  destruct (Lock_then_Unlock sample_id sample_id cfg "/etc/app.conf" fresh_machine w1
              eq_refl Hlock eq_refl) as (w2 & Hunlock & Hgone & Hframe).
  exists w1, w2. split; [exact Hlock|]. split; [exact Hunlock|]. split; [exact Hgone|].
  apply Hframe. discriminate.
Defined.

Lemma CheckFullFilename_accepts_rooted_witness :
  CheckFullFilename "/etc/app.conf" fresh_machine = Ret tt fresh_machine
  ∧ CheckFullFilename "app.conf" fresh_machine
    = Exit 1 (emit (EPrint ("Please supply a complete file path." ++ nl)) fresh_machine).
Proof.
  split.
  - destruct (CheckFullFilename_accepts_rooted "/etc/app.conf" fresh_machine) as (Hok & _).
    apply Hok. eexists. reflexivity.
  - destruct (CheckFullFilename_accepts_rooted "app.conf" fresh_machine) as (_ & Hno & _).
    apply Hno. intros rest. discriminate.
Defined.

Lemma outRun_missing_flags_witness :
  ∃ msg,
    outRun sample_checksum sample_id sample_id sample_key_data sample_key_checksum
      (sample_store sample_content (sample_checksum sample_content)) LengthCheck_bytes
      (mkFlags "" "/etc/app.conf" 10 416 "service app reload" "kvexpress"
         "localhost:8500" "" "root" "" "") fresh_machine
    = Exit 1 (emit (EPrint (msg ++ nl))
                (emit (EStdlog "out: Checking cli flags.") fresh_machine))
    ∧ msg = "Need a key location in -k".
Proof.
  destruct (outRun_missing_flags sample_checksum sample_id sample_id sample_key_data
              sample_key_checksum
              (sample_store sample_content (sample_checksum sample_content))
              LengthCheck_bytes
              (mkFlags "" "/etc/app.conf" 10 416 "service app reload" "kvexpress"
                 "localhost:8500" "" "root" "" "") fresh_machine (or_introl eq_refl))
    as (msg & Hrun & Hkey & _).
  exists msg. split; [exact Hrun|]. apply Hkey. reflexivity.
Defined.

Lemma outRun_commits_fetched_witness :
  ∃ w' f,
    outRun sample_checksum sample_id sample_id sample_key_data sample_key_checksum
      (sample_store sample_content (sample_checksum sample_content)) LengthCheck_lines
      (sample_flags "/etc/app.conf" "") locked_machine = Ret tt w'
    ∧ w_fs w' !! "/etc/app.conf" = Some (NFile f)
    ∧ f_data f = sample_content
    ∧ file_at w' "/etc/app.conf.locked" = file_at locked_machine "/etc/app.conf.locked".
Proof.
  set (w' := final (outRun sample_checksum sample_id sample_id sample_key_data
                      sample_key_checksum
                      (sample_store sample_content (sample_checksum sample_content))
                      LengthCheck_lines (sample_flags "/etc/app.conf" "") locked_machine)).
  assert (Hrun : outRun sample_checksum sample_id sample_id sample_key_data
                   sample_key_checksum
                   (sample_store sample_content (sample_checksum sample_content))
                   LengthCheck_lines (sample_flags "/etc/app.conf" "") locked_machine
                 = Ret tt w') by (vm_compute; reflexivity).
  destruct (outRun_commits_fetched sample_checksum sample_id sample_id sample_key_data
              sample_key_checksum
              (sample_store sample_content (sample_checksum sample_content))
              LengthCheck_lines (sample_flags "/etc/app.conf" "") locked_machine w')
    as (f & Hfile & Hdata & _ & _ & Hmarker & _).
  - discriminate.
  - discriminate.
  - vm_compute. reflexivity.
  - vm_compute. reflexivity.
  - exact Hrun.
  - exists w', f. split; [exact Hrun|]. split; [exact Hfile|].
    split; [exact Hdata|exact Hmarker].
Defined.

Lemma WriteFile_returns_iff_witness :
  ∃ w1, CheckFullPath "/etc/app.conf" fresh_machine = Ret tt w1
        ∧ w_fs w1 !! "/etc/app.conf.kvexpress" ≠ Some NDir
        ∧ w_fs w1 !! "/etc/app.conf" ≠ Some NDir.
Proof.
  destruct (WriteFile_returns_iff sample_id sample_id sample_content "/etc/app.conf" 416
              "root" fresh_machine) as (Hneeds & _).
  destruct Hneeds as (w1 & Hc & Hn1 & Hn2 & _).
  - eexists. vm_compute. reflexivity.
  - exists w1. split; [exact Hc|]. split; [exact Hn1|exact Hn2].
Defined.

Lemma CheckLastFile_once_witness :
  ∃ w1,
    CheckLastFile sample_id sample_id "/etc/app.conf.last" 416 "root" fresh_machine
    = Ret tt w1
    ∧ CheckLastFile sample_id sample_id "/etc/app.conf.last" 416 "root" w1 = Ret tt w1
    ∧ file_at (final (CheckLastFile sample_id sample_id "/etc/app.conf.last" 416 "root"
                        locked_machine)) "/etc/app.conf"
      = file_at locked_machine "/etc/app.conf".
Proof.
  set (w1 := final (CheckLastFile sample_id sample_id "/etc/app.conf.last" 416 "root"
                      fresh_machine)).
  assert (Hrun : CheckLastFile sample_id sample_id "/etc/app.conf.last" 416 "root"
                   fresh_machine = Ret tt w1) by (vm_compute; reflexivity).
  destruct (CheckLastFile_once sample_id sample_id "/etc/app.conf.last" 416 "root"
              fresh_machine) as (Hagain & _).
  destruct (CheckLastFile_once sample_id sample_id "/etc/app.conf.last" 416 "root"
              locked_machine) as (_ & Hframe).
  exists w1. split; [exact Hrun|]. split; [exact (Hagain w1 Hrun)|].
  apply Hframe; discriminate.
Defined.
